(** * mprocess: bounded-concurrency executors

  A shallow embedding of [src/mprocess.py]: the two executors
  [MultiprocessingPool] (isolated call pool) and [SubprocessPool]
  (command queue and scheduler), followed by the properties of the
  design document that can be stated about them.

  Conventions of the embedding.
  - Python values that reach a dynamic type test are values of [pyval].
  - A method that mutates [self] is a function from the object to the
    object after the call paired with either the exception raised or
    the value returned: a mutation made before a [raise] persists.
  - What a run does to the outside (processes spawned, workers used,
    lines sent to [logging]) is recorded as a trace of events.
  - The operating system, the library's worker pool and the user's
    callables are an environment record, over which every theorem
    quantifies.
  - A [string] is a Python [str] whose characters have code points
    below 256, each character being the code point of its number. *)

From Stdlib Require Import ZArith List String Ascii Bool Lia DecimalString.
Import ListNotations.

Local Open Scope string_scope.
Local Open Scope list_scope.

Set Warnings "-register-all".


(* ================================================================== *)
(** ** Python values, exceptions and builtins *)

Module Py.

Inductive pyval : Type :=
| PyNone
| PyBool (b : bool)
| PyInt (z : Z)
| PyStr (s : string)
| PyList (items : list pyval)
| PyTuple (items : list pyval)
| PyFunc (name : string).

Inductive pytype : Type := TInt | TBool | TStr | TList | TTuple.

(** [isinstance(v, t)]; [bool] is a subclass of [int]. *)
Definition isinstance (v : pyval) (t : pytype) : bool :=
  match t, v with
  | TInt, PyInt _ | TInt, PyBool _ => true
  | TBool, PyBool _ => true
  | TStr, PyStr _ => true
  | TList, PyList _ => true
  | TTuple, PyTuple _ => true
  | _, _ => false
  end.

(** [callable(v)]: among the values modelled, functions only. *)
Definition callable (v : pyval) : bool :=
  match v with PyFunc _ => true | _ => false end.

(** [str(type(v))], as an f-string prints it. *)
Definition type_repr (v : pyval) : string :=
  match v with
  | PyNone => "<class 'NoneType'>"
  | PyBool _ => "<class 'bool'>"
  | PyInt _ => "<class 'int'>"
  | PyStr _ => "<class 'str'>"
  | PyList _ => "<class 'list'>"
  | PyTuple _ => "<class 'tuple'>"
  | PyFunc _ => "<class 'function'>"
  end.

(** Exceptions.  [SystemExit], [KeyboardInterrupt] and [GeneratorExit]
    derive from [BaseException] directly, and [UserBaseException]
    stands for a user's classes that do so; every other class derives
    from [Exception], [UserError] standing for those of a user's own. *)
Inductive pyexc : Type :=
| AssertionError (msg : string)
| ValidationError (msg : string)
| RuntimeError (msg : string)
| AttributeError (msg : string)
| OSError (msg : string)
| TypeError (msg : string)
| ValueError (msg : string)
| PicklingError (msg : string)
| UserError (msg : string)
| SystemExit (code : string)
| KeyboardInterrupt
| GeneratorExit
| UserBaseException (msg : string).

(** [isinstance(e, Exception)]: what [except Exception] catches. *)
Definition is_Exception (e : pyexc) : bool :=
  match e with
  | SystemExit _ | KeyboardInterrupt | GeneratorExit
  | UserBaseException _ => false
  | _ => true
  end.

(** The design document's [ValidationError]: a failed [assert] or a
    failed [utils.check_types]. *)
Definition is_validation_error (e : pyexc) : bool :=
  match e with
  | AssertionError _ | ValidationError _ => true
  | _ => false
  end.

Definition str_of_Z (z : Z) : string := NilZero.string_of_int (Z.to_int z).

Definition nl : string := String (ascii_of_nat 10) EmptyString.

(** [c.isspace()], the white space that [str.strip] removes: among the
    code points below 256 these are 9 to 13, 28 to 32, 133 (next line)
    and 160 (no-break space). *)
Definition isspace (c : ascii) : bool :=
  let n := nat_of_ascii c in
  ((9 <=? n) && (n <=? 13) || (28 <=? n) && (n <=? 32)
   || (n =? 133) || (n =? 160))%nat.

Fixpoint lstrip_chars (l : list ascii) : list ascii :=
  match l with
  | c :: r => if isspace c then lstrip_chars r else l
  | [] => []
  end.

Definition strip (s : string) : string :=
  string_of_list_ascii
    (rev (lstrip_chars (rev (lstrip_chars (list_ascii_of_string s))))).

(** [sep.join(parts)] *)
Definition join (sep : string) (parts : list string) : string :=
  String.concat sep parts.

(** [l.pop()]: the last element and the list without it. *)
Fixpoint pop {A : Type} (l : list A) : option (list A * A) :=
  match l with
  | [] => None
  | x :: r =>
      match pop r with
      | None => Some ([], x)
      | Some (r', y) => Some (x :: r', y)
      end
  end.

(** *** Methods: state passing with exceptions *)

Definition M (S A : Type) : Type := S -> S * (pyexc + A).

Definition ret {S A : Type} (a : A) : M S A := fun s => (s, inr a).

Definition bind {S A B : Type} (c : M S A) (k : A -> M S B) : M S B :=
  fun s =>
    match c s with
    | (s', inl e) => (s', inl e)
    | (s', inr a) => k a s'
    end.

Definition raise {S A : Type} (e : pyexc) : M S A := fun s => (s, inl e).

Definition lift {S A : Type} (r : pyexc + A) : M S A := fun s => (s, r).

Definition modify {S : Type} (f : S -> S) : M S unit :=
  fun s => (f s, inr tt).

(** [assert cond, msg] *)
Definition assert_ {S : Type} (cond : bool) (msg : string) : M S unit :=
  if cond then ret tt else raise (AssertionError msg).

(** [for x in l: body(x)] *)
Fixpoint for_each {S A : Type} (l : list A) (body : A -> M S unit)
  : M S unit :=
  match l with
  | [] => ret tt
  | x :: r => bind (body x) (fun _ => for_each r body)
  end.

End Py.

Import Py.

Notation "x <- c ;; k" := (bind c (fun x => k))
(at level 61, c at next level, right associativity).
Notation "c ;;; k" := (bind c (fun _ => k))
(at level 61, right associativity).

(* ================================================================== *)
(** ** schammer.utils *)

Module Utils.

(** Modelled from the spec: [schammer.utils.check_types] is imported by
    [mprocess.py] but is not part of the sources.  The design document
    says of the submissions it guards that they fail with a validation
    error on a value of the wrong type; each entry is
    [(name, value, expected type)] and the first value that is not an
    instance of its expected type raises. *)
Fixpoint check_types (entries : list (string * pyval * pytype))
  : pyexc + unit :=
  match entries with
  | [] => inr tt
  | (name, v, t) :: rest =>
      if isinstance v t then check_types rest
      else inl (ValidationError (name ++ " has the wrong type, was a "
                                      ++ type_repr v))
  end.

End Utils.

Import Utils.

Definition int_value (v : pyval) : Z :=
  match v with
  | PyInt z => z
  | PyBool b => if b then 1%Z else 0%Z
  | _ => 0%Z
  end.

(** [str(v)] for an instance of [int], as an f-string prints it. *)
Definition int_str (v : pyval) : string :=
  match v with
  | PyBool true => "True"
  | PyBool false => "False"
  | _ => str_of_Z (int_value v)
  end.

Definition bool_value (v : pyval) : bool :=
  match v with PyBool b => b | _ => false end.

Definition str_value (v : pyval) : string :=
  match v with PyStr s => s | _ => "" end.

Definition list_items (v : pyval) : list pyval :=
  match v with PyList items => items | _ => [] end.

(* ================================================================== *)
(** ** class MultiprocessingPool *)

Module MultiprocessingPool.

Record FunctionCall : Type :=
  { func : pyval; arg_tuple : pyval }.

(** [FunctionCall.__init__] *)
Definition FunctionCall_init (func arg_tuple : pyval) : pyexc + FunctionCall :=
  if negb (callable func) then
    inl (AssertionError "func must be a callable function")
  else if negb (isinstance arg_tuple TTuple) then
    inl (AssertionError "arg tuple must be a tuple")
  else inr {| func := func; arg_tuple := arg_tuple |}.

(** What [add_function_call] may be handed: an instance of
    [FunctionCall], or any other value. *)
Inductive pyobj : Type :=
| Instance (fc : FunctionCall)
| Other (v : pyval).

(** The pool object: its only attribute. *)
Record t : Type := { function_call_list : list FunctionCall }.

Definition init : t := {| function_call_list := [] |}.

Definition add_function_call (function_call : pyobj) : M t unit :=
  match function_call with
  | Instance fc =>
      modify (fun self =>
                {| function_call_list := function_call_list self ++ [fc] |})
  | Other _ => raise (AssertionError "call must be a MultiprocessPool.Call")
  end.

(** What one invocation of a user's callable does: the text it sends to
    [logging] and the exception it raises, if any, of whatever class. *)
Record call_behaviour : Type :=
  { logged : string; raised : option pyexc }.

(** The errors with which [pickle] refuses a call: [PicklingError] (a
    lambda), [AttributeError] (a local object) or [TypeError] (an
    argument of a type that cannot be pickled). *)
Inductive pickling_error : Type :=
| CannotPickle (msg : string)
| CannotPickleLocal (msg : string)
| CannotPickleType (msg : string).

Definition exception_of_pickling_error (f : pickling_error) : pyexc :=
  match f with
  | CannotPickle msg => PicklingError msg
  | CannotPickleLocal msg => AttributeError msg
  | CannotPickleType msg => TypeError msg
  end.

(** What the worker pool of [multiprocessing] makes of a dispatched
    call.  The call reaches a worker; or the pool cannot pickle it and
    keeps the error for [result.get()] to raise; or the call or its
    result is lost on the way (the worker process dies), and
    [result.get()] never returns. *)
Inductive transfer_outcome : Type :=
| Delivered
| Refused (f : pickling_error)
| Lost.

(** Modelled from the spec: [utils.setup_string_stream_logging] and
    [utils.log_last_error] come from [schammer.utils], which is not in
    the sources.  By the design document the first redirects the
    worker's logging into the buffer it is given for the duration of the
    call, and the second logs the error being handled, which therefore
    lands in that buffer; [log_last_error] is the text so written for an
    exception.  [invoke] is the behaviour of the user's callables, by
    name and arguments, and [transfer] that of the library's pool for a
    call. *)
Record Env : Type :=
  { invoke : string -> list pyval -> call_behaviour;
    log_last_error : pyexc -> string;
    transfer : FunctionCall -> transfer_outcome }.

(** [function_call.func( *function_call.arg_tuple )] *)
Definition call (env : Env) (f args : pyval) : call_behaviour :=
  match f, args with
  | PyFunc name, PyTuple items => invoke env name items
  | PyFunc name, PyList items => invoke env name items
  | PyFunc _, _ =>
      {| logged := "";
         raised := Some (TypeError "argument after * must be an iterable") |}
  | _, _ =>
      {| logged := ""; raised := Some (TypeError "object is not callable") |}
  end.

(** The worker: the log stream starts empty, receives what the callable
    logs and, when the callable raises an instance of [Exception], the
    logged error; the value returned is the stripped text and the flag.
    An exception that [except Exception] does not catch leaves the
    worker, which then returns nothing. *)
Definition _call_func_and_return_log_and_error_caught
  (env : Env) (function_call : FunctionCall) : pyexc + (string * bool) :=
  let b := call env (func function_call) (arg_tuple function_call) in
  let log_stream := logged b in
  match raised b with
  | None => inr (strip log_stream, false)
  | Some e =>
      if is_Exception e then
        inr (strip (log_stream ++ log_last_error env e), true)
      else inl e
  end.

Inductive event : Type :=
| PoolCreate (processes : Z)
| ApplyAsync (function_call : FunctionCall)
| ResultGet (index : nat)
| LogInfo (msg : string)
| PoolClose.

(** The pool object together with what has been done to the outside. *)
Record world : Type := { self : t; events : list event }.

Definition emit (ev : event) : M world unit :=
  modify (fun w => {| self := self w; events := events w ++ [ev] |}).

Definition get_function_call_list : M world (list FunctionCall) :=
  fun w => (w, inr (function_call_list (self w))).

(** What [result.get()] finds for a call: the pair that the worker
    returned, an exception to raise again, or nothing, for ever.  An
    exception that leaves the worker function ends the worker process,
    and the result of its call never comes. *)
Inductive arrival : Type :=
| Arrives (result : string * bool)
| Raises (e : pyexc)
| NeverArrives.

Definition result_of (env : Env) (function_call : FunctionCall) : arrival :=
  match transfer env function_call with
  | Refused f => Raises (exception_of_pickling_error f)
  | Lost => NeverArrives
  | Delivered =>
      match _call_func_and_return_log_and_error_caught env function_call with
      | inr result => Arrives result
      | inl _ => NeverArrives
      end
  end.

(** [result.get()] for the call dispatched at position [index]; [None]
    when it never returns. *)
Definition result_get (env : Env) (indexed : nat * FunctionCall)
  : M world (option (string * bool)) :=
  emit (ResultGet (fst indexed)) ;;;
  match result_of env (snd indexed) with
  | Arrives result => ret (Some result)
  | Raises e => raise e
  | NeverArrives => ret None
  end.

(** [[result.get() for result in result_list]]: the results in the
    order of dispatch; [None] when one of the calls never returns, the
    later ones not being made. *)
Fixpoint get_results (env : Env) (indexed : list (nat * FunctionCall))
  : M world (option (list (string * bool))) :=
  match indexed with
  | [] => ret (Some [])
  | first :: rest =>
      got <- result_get env first ;;
      match got with
      | None => ret None
      | Some result =>
          results <- get_results env rest ;;
          ret (option_map (cons result) results)
      end
  end.

(** How a run ends that raises nothing: it returns, or it waits for
    ever for a result. *)
Inductive run_end : Type := Returned | Blocked.

(** The body of the loop that logs the logs and checks for errors. *)
Definition log_and_check (result : string * bool) : M world unit :=
  let (log_str, error_caught) := result in
  (if negb (log_str =? "") then
     emit (LogInfo (" - multiprocessing function call completed - "
                      ++ nl ++ log_str))
   else ret tt) ;;;
  (if error_caught then
     raise (RuntimeError "multiprocessing function call caught an error")
   else ret tt).

(** [MultiprocessingPool.run_processes].  A worker computes its result
    from the call alone, so the result is taken where [result.get()]
    collects it. *)
Definition run_processes (env : Env) (processes : pyval) : M world run_end :=
  assert_ (isinstance processes TInt)
    ("processes must be an int, was a " ++ type_repr processes) ;;;
  let p := int_value processes in
  assert_ ((0 <? p)%Z && (p <? 37)%Z)
    ("processes must be between 1 and 36 inclusive, was "
       ++ int_str processes) ;;;
  emit (PoolCreate p) ;;;
  calls <- get_function_call_list ;;
  for_each calls (fun function_call => emit (ApplyAsync function_call)) ;;;
  collected <- get_results env (combine (seq 0 (List.length calls)) calls) ;;
  match collected with
  | None => ret Blocked
  | Some log_str_list =>
      for_each log_str_list log_and_check ;;;
      emit PoolClose ;;;
      ret Returned
  end.

End MultiprocessingPool.

(* ================================================================== *)
(** ** class SubprocessPool *)

Module SubprocessPool.

(** The pool object: its only attribute, the commands accepted so far.
    An accepted command is a list of [str]. *)
Record t : Type := { cmd_list : list (list string) }.

Definition init : t := {| cmd_list := [] |}.

Definition add_command (cmd : pyval) : M t unit :=
  lift (check_types [("cmd", cmd, TList)]) ;;;
  lift (check_types (map (fun cs => ("cmd str", cs, TStr)) (list_items cmd))) ;;;
  assert_ (0 <? List.length (list_items cmd))%nat "cmd must not be empty" ;;;
  modify (fun self =>
            {| cmd_list := cmd_list self ++ [map str_value (list_items cmd)] |}).

Definition add_list_of_commands (cmd_list : pyval) : M t unit :=
  lift (check_types [("cmd_list", cmd_list, TList)]) ;;;
  for_each (list_items cmd_list) add_command.

(** A child process as the scheduler can observe it: the number of
    [communicate(timeout=1)] calls that time out before the one that
    returns, the exit status, and the bytes written to the merged
    standard output. *)
Record Popen : Type :=
  { polls_left : nat; returncode : Z; output_bytes : list Byte.byte }.

(** What [subprocess.Popen] raises when it starts no child: an
    [OSError] of the operating system (no such file, no permission), or
    a [ValueError] for arguments it refuses (a word with an embedded
    null character). *)
Inductive launch_error : Type :=
| LaunchOSError (msg : string)
| LaunchValueError (msg : string).

Definition exception_of_launch_error (f : launch_error) : pyexc :=
  match f with
  | LaunchOSError msg => OSError msg
  | LaunchValueError msg => ValueError msg
  end.

(** The environment of the scheduler.  [spawn i a] is the child that
    [subprocess.Popen] starts for the command at position [i] of the
    batch on its attempt number [a] (counted from 0), or the error with
    which it fails.  [decode] is [bytes.decode()], [None] standing for
    [UnicodeDecodeError]. *)
Record Env : Type :=
  { spawn : nat -> Z -> launch_error + Popen;
    decode : list Byte.byte -> option string }.

(** [subprocess.Popen(args=..., stdout=..., stderr=..., shell=...)] *)
Definition Popen_init (env : Env) (ident : nat) (attempt : Z)
  : pyexc + Popen :=
  match spawn env ident attempt with
  | inl f => inl (exception_of_launch_error f)
  | inr p => inr p
  end.

(** The local class [CMDTracker].  [ident] is the identity of the
    object: the position of its command in the batch. *)
Record CMDTracker : Type :=
  { ident : nat;
    cmd : list string;
    retries : Z;
    popen : option Popen;
    stdout_bytes : option (list Byte.byte) }.

Definition CMDTracker_init (ident : nat) (cmd : list string) : CMDTracker :=
  {| ident := ident; cmd := cmd; retries := 0;
     popen := None; stdout_bytes := None |}.

Definition set_popen (p : option Popen) (c : CMDTracker) : CMDTracker :=
  {| ident := ident c; cmd := cmd c; retries := retries c;
     popen := p; stdout_bytes := stdout_bytes c |}.

Definition set_stdout_bytes (b : option (list Byte.byte)) (c : CMDTracker)
  : CMDTracker :=
  {| ident := ident c; cmd := cmd c; retries := retries c;
     popen := popen c; stdout_bytes := b |}.

Definition set_retries (r : Z) (c : CMDTracker) : CMDTracker :=
  {| ident := ident c; cmd := cmd c; retries := r;
     popen := popen c; stdout_bytes := stdout_bytes c |}.

(** The [args] handed to [Popen]: the list itself, or with [shell] the
    words joined by spaces. *)
Inductive popen_args : Type :=
| Argv (words : list string)
| ShellLine (line : string).

Inductive event : Type :=
| Spawn (ident : nat) (args : popen_args) (capture shell : bool)
| Communicate (ident : nat)
| LogInfo (msg : string).

Record world : Type := { self : t; events : list event }.

Definition emit (ev : event) : M world unit :=
  modify (fun w => {| self := self w; events := events w ++ [ev] |}).

Definition none_has_no (attr : string) : pyexc :=
  AttributeError ("'NoneType' object has no attribute '" ++ attr ++ "'").

(** The inner [while]: start processes while a slot is free and a
    command waits.  [n] bounds the iterations by the number of waiting
    commands, of which each iteration takes one. *)
Fixpoint start_processes (n : nat) (env : Env) (processes : Z)
  (shell output : bool) (to_run running : list CMDTracker)
  : M world (list CMDTracker * list CMDTracker) :=
  match n with
  | O => ret (to_run, running)
  | S n' =>
      if (Z.of_nat (List.length running) <? processes)%Z then
        match pop to_run with
        | None => ret (to_run, running)
        | Some (to_run', cmd_tracker) =>
            let args := if shell then ShellLine (join " " (cmd cmd_tracker))
                        else Argv (cmd cmd_tracker) in
            emit (Spawn (ident cmd_tracker) args output shell) ;;;
            p <- lift (Popen_init env (ident cmd_tracker)
                         (retries cmd_tracker)) ;;
            start_processes n' env processes shell output to_run'
              (running ++ [set_popen (Some p) cmd_tracker])
        end
      else ret (to_run, running)
  end.

(** The [for] that determines which processes have completed. *)
Fixpoint poll (output : bool)
  (running still_running completed : list CMDTracker)
  : M world (list CMDTracker * list CMDTracker) :=
  match running with
  | [] => ret (still_running, completed)
  | cmd_tracker :: rest =>
      match popen cmd_tracker with
      | None => raise (none_has_no "communicate")
      | Some p =>
          emit (Communicate (ident cmd_tracker)) ;;;
          match polls_left p with
          | O =>
              let stdout_data :=
                if output then Some (output_bytes p) else None in
              poll output rest still_running
                (completed ++ [set_stdout_bytes stdout_data cmd_tracker])
          | S k =>
              let p' := {| polls_left := k; returncode := returncode p;
                           output_bytes := output_bytes p |} in
              poll output rest
                (still_running ++ [set_popen (Some p') cmd_tracker]) completed
          end
      end
  end.

(** The local function [get_std_out_from_tracker].  Its body reads the
    variable [cmd_tracker] of the enclosing loop, not its parameter; at
    both call sites the argument is that variable.  With [output] unset
    [stdout_bytes] is [None] and [.decode] raises [AttributeError]. *)
Definition get_std_out_from_tracker (env : Env) (cmd_tracker : CMDTracker)
  : pyexc + string :=
  match stdout_bytes cmd_tracker with
  | None => inl (none_has_no "decode")
  | Some b =>
      let _stdout_str :=
        match decode env b with
        | Some s => strip s
        | None => ""
        end in
      inr (nl ++ _stdout_str)%string
  end.

(** The [for] that checks the completed processes; the value is the
    list of waiting commands with the ones to retry appended. *)
Fixpoint check_completed (env : Env) (output : bool) (retries_limit : Z)
  (completed to_run : list CMDTracker) : M world (list CMDTracker) :=
  match completed with
  | [] => ret to_run
  | cmd_tracker :: rest =>
      match popen cmd_tracker with
      | None => raise (none_has_no "returncode")
      | Some p =>
          if negb (returncode p =? 0)%Z then
            if (retries cmd_tracker =? retries_limit)%Z then
              stdout_str <- lift (get_std_out_from_tracker env cmd_tracker) ;;
              emit (LogInfo (" - subprocess exited with errors - "
                               ++ stdout_str)) ;;;
              raise (RuntimeError
                       ("subprocess exited with a non-zero return code and retries limit reached, "
                          ++ str_of_Z (returncode p)))
            else
              check_completed env output retries_limit rest
                (to_run ++ [set_popen None
                              (set_retries (retries cmd_tracker + 1)
                                 cmd_tracker)])
          else
            (if output then
               stdout_str <- lift (get_std_out_from_tracker env cmd_tracker) ;;
               emit (LogInfo (" - subprocess completed - " ++ stdout_str))
             else ret tt) ;;;
            check_completed env output retries_limit rest to_run
      end
  end.

(** How a bounded unfolding of the outer [while] ends when nothing is
    raised: the loop condition became false, or the bound was reached
    with work left. *)
Inductive completion : Type := Finished | OutOfFuel.

(** The outer [while], unfolded at most [fuel] times. *)
Fixpoint main_loop (fuel : nat) (env : Env) (processes : Z)
  (shell output : bool) (retries_limit : Z)
  (to_run running : list CMDTracker) : M world completion :=
  if (0 <? List.length to_run)%nat || (0 <? List.length running)%nat then
    match fuel with
    | O => ret OutOfFuel
    | S fuel' =>
        started <- start_processes (List.length to_run) env processes
                     shell output to_run running ;;
        polled <- poll output (snd started) [] [] ;;
        to_run' <- check_completed env output retries_limit
                     (snd polled) (fst started) ;;
        main_loop fuel' env processes shell output retries_limit
          to_run' (fst polled)
    end
  else ret Finished.

Definition get_cmd_list : M world (list (list string)) :=
  fun w => (w, inr (cmd_list (self w))).

Definition clear_cmd_list : M world unit :=
  modify (fun w => {| self := {| cmd_list := [] |}; events := events w |}).

(** [enumerate]: each command with its position. *)
Definition enumerate {A : Type} (l : list A) : list (nat * A) :=
  combine (seq 0 (List.length l)) l.

(** [SubprocessPool.run_processes].  The assertion that [self.cmd_list]
    is not [None] holds by the type of the attribute. *)
Definition run_processes (fuel : nat) (env : Env)
  (processes shell output retries : pyval) : M world completion :=
  lift (check_types [("processes", processes, TInt); ("shell", shell, TBool);
                     ("output", output, TBool); ("retries", retries, TInt)]) ;;;
  let p := int_value processes in
  let r := int_value retries in
  assert_ ((0 <? p)%Z && (p <? 37)%Z)
    ("processes must be between 1 and 36 inclusive, was "
       ++ int_str processes) ;;;
  assert_ ((0 <=? r)%Z && (r <=? 30)%Z)
    ("retries must be an int from 0 to 30, was " ++ int_str retries) ;;;
  cmds <- get_cmd_list ;;
  let to_run_cmd_tracker_list :=
    map (fun ic => CMDTracker_init (fst ic) (snd ic)) (enumerate cmds) in
  clear_cmd_list ;;;
  main_loop fuel env p (bool_value shell) (bool_value output) r
    to_run_cmd_tracker_list [].

End SubprocessPool.

(* ================================================================== *)
(** ** Vocabulary for the properties of the call pool *)

Section CallPoolVocabulary.

Import MultiprocessingPool.

Definition call_with_events (w : world) (evs : list event) : world :=
  {| self := self w; events := events w ++ evs |}.

(** The lines that the logging loop sends out: the non-empty log of each
    result in turn, up to and including the first result whose flag is
    set. *)
Fixpoint logged_lines (results : list (string * bool)) : list event :=
  match results with
  | [] => []
  | (log_str, error_caught) :: rest =>
      (if negb (log_str =? "") then
         [LogInfo (" - multiprocessing function call completed - "
                     ++ nl ++ log_str)]
       else [])
        ++ (if error_caught then [] else logged_lines rest)
  end.

Definition any_error (results : list (string * bool)) : bool :=
  existsb snd results.

Definition batch_error : pyexc :=
  RuntimeError "multiprocessing function call caught an error".

(** What [result.get()] finds for each of the queued calls. *)
Definition results_of (env : Env) (w : world) : list arrival :=
  map (result_of env) (function_call_list (self w)).

(** How the collection of the results ends: with all of them, or at the
    call of position [k], whose [result.get()] raises or never
    returns. *)
Inductive collection : Type :=
| AllArrived (results : list (string * bool))
| CutShort (k : nat) (e : pyexc)
| Stuck (k : nat).

Fixpoint collection_of (arrivals : list arrival) : collection :=
  match arrivals with
  | [] => AllArrived []
  | Arrives result :: rest =>
      match collection_of rest with
      | AllArrived results => AllArrived (result :: results)
      | CutShort k e => CutShort (S k) e
      | Stuck k => Stuck (S k)
      end
  | Raises e :: _ => CutShort 0 e
  | NeverArrives :: _ => Stuck 0
  end.

(** The pair that arrived, if one did. *)
Definition arrived (a : arrival) : string * bool :=
  match a with
  | Arrives result => result
  | _ => ("", false)
  end.



(** A method of the pool object, run in a world. *)
Definition on_pool {A : Type} (c : M t A) : M world A :=
  fun w =>
    let (pool', r) := c (self w) in
    ({| self := pool'; events := events w |}, r).

(** A pool object on which nothing has happened yet. *)
Definition fresh_call_pool (calls : list FunctionCall) : world :=
  {| self := {| function_call_list := calls |}; events := [] |}.

(** Two callables for the examples: [noisy_failure] logs a line and
    raises, [quiet_success] logs a line and returns. *)
Definition example_env : Env :=
  {| invoke := fun name _ =>
                 if (name =? "noisy_failure")%string then
                   {| logged := "first call failed";
                      raised := Some (UserError "boom") |}
                 else
                   {| logged := "second call was fine"; raised := None |};
     log_last_error := fun _ => "";
     transfer := fun _ => Delivered |}.

Definition noisy_failure : FunctionCall :=
  {| func := PyFunc "noisy_failure"; arg_tuple := PyTuple [] |}.

Definition quiet_success : FunctionCall :=
  {| func := PyFunc "quiet_success"; arg_tuple := PyTuple [] |}.







End CallPoolVocabulary.

(* ================================================================== *)
(** ** Vocabulary for the properties of the command scheduler *)

Section SchedulerVocabulary.

Import SubprocessPool.

(** A value that [add_command] accepts: a non-empty list of [str]. *)
Definition valid_cmd (cmd : pyval) : bool :=
  isinstance cmd TList
  && forallb (fun cs => isinstance cs TStr) (list_items cmd)
  && (0 <? List.length (list_items cmd))%nat.

(** The words of an accepted command. *)
Definition cmd_words (cmd : pyval) : list string :=
  map str_value (list_items cmd).

Definition sched_with_events (w : world) (evs : list event) : world :=
  {| self := self w; events := events w ++ evs |}.

(** A scheduler object on which nothing has happened yet. *)
Definition fresh_scheduler (cmds : list (list string)) : world :=
  {| self := {| cmd_list := cmds |}; events := [] |}.

Definition is_spawn (ev : event) : Prop :=
  match ev with Spawn _ _ _ _ => True | _ => False end.

Definition is_communicate (ev : event) : Prop :=
  match ev with Communicate _ => True | _ => False end.

Definition is_log (ev : event) : Prop :=
  match ev with LogInfo _ => True | _ => False end.

(** Exceptions of the scheduling loop: the [OSError] of a launch, the
    [AttributeError] of a missing attribute and the [RuntimeError] of
    the exhausted budget. *)
Definition is_scheduling_error (e : pyexc) : Prop :=
  match e with
  | OSError _ | AttributeError _ | RuntimeError _ => True
  | _ => False
  end.

(** The exception of a launch that failed. *)
Definition is_launch_exception (e : pyexc) : Prop :=
  exists f, e = exception_of_launch_error f.

(** *** Commands that succeed within the retry budget

    [K i] is the attempt (counted from 0) on which the command at
    position [i] exits with status zero; every attempt before it is
    launched and exits with a non-zero status; [K i] is at most the
    budget [R]. *)
Definition succeeds_at (env : Env) (R : Z) (K : nat -> nat) (i : nat)
  : Prop :=
  (Z.of_nat (K i) <= R)%Z
  /\ (exists p0, spawn env i (Z.of_nat (K i)) = inr p0
                 /\ returncode p0 = 0%Z)
  /\ (forall a, (a < K i)%nat ->
                exists p0, spawn env i (Z.of_nat a) = inr p0
                           /\ returncode p0 <> 0%Z).

(** The number of polls that attempt [a] of command [i] takes before
    the one that finds it completed. *)
Definition polls_of (env : Env) (i a : nat) : nat :=
  match spawn env i (Z.of_nat a) with
  | inr p0 => polls_left p0
  | inl _ => 0
  end.

(** The polls still to be made for command [i] over [k] attempts from
    attempt [a] on. *)
Fixpoint wait_cost (env : Env) (i a k : nat) : nat :=
  match k with
  | O => 0
  | S k' => S (polls_of env i a) + wait_cost env i (S a) k'
  end.

(** The polls still to be made for a waiting command and for a running
    one. *)
Definition waiting_cost (env : Env) (K : nat -> nat) (c : CMDTracker)
  : nat :=
  let a := Z.to_nat (retries c) in
  wait_cost env (ident c) a (S (K (ident c) - a)).

Definition running_cost (env : Env) (K : nat -> nat) (c : CMDTracker)
  : nat :=
  let a := Z.to_nat (retries c) in
  match popen c with
  | Some pr => S (polls_left pr)
  | None => 0
  end + wait_cost env (ident c) (S a) (K (ident c) - a).

Definition total_cost (cost : CMDTracker -> nat) (l : list CMDTracker)
  : nat :=
  list_sum (map cost l).

(** The number of times command [i] is launched in a trace. *)
Definition spawn_count (i : nat) (evs : list event) : nat :=
  List.length
    (filter (fun ev => match ev with
                       | Spawn j _ _ _ => (j =? i)%nat
                       | _ => false
                       end) evs).

(** The launches of command [i] still to come from a waiting tracker
    and from a running one. *)
Definition launches_waiting (K : nat -> nat) (i : nat) (c : CMDTracker)
  : nat :=
  if (ident c =? i)%nat then S (K i - Z.to_nat (retries c)) else 0.

Definition launches_running (K : nat -> nat) (i : nat) (c : CMDTracker)
  : nat :=
  if (ident c =? i)%nat then K i - Z.to_nat (retries c) else 0.

(** What the scheduling loop maintains of its two lists when every
    command succeeds within the budget. *)
Definition waiting_ok (K : nat -> nat) (n : nat) (c : CMDTracker) : Prop :=
  (ident c < n)%nat /\ (0 <= retries c <= Z.of_nat (K (ident c)))%Z.

Definition running_ok (env : Env) (K : nat -> nat) (n : nat)
  (c : CMDTracker) : Prop :=
  waiting_ok K n c
  /\ exists pr p0,
      popen c = Some pr
      /\ spawn env (ident c) (retries c) = inr p0
      /\ returncode pr = returncode p0.

Definition completed_ok (env : Env) (K : nat -> nat) (n : nat) (out : bool)
  (c : CMDTracker) : Prop :=
  running_ok env K n c
  /\ (exists pr, popen c = Some pr /\ polls_left pr = 0%nat)
  /\ (out = true -> exists b, stdout_bytes c = Some b).

(** Environments for the examples: every attempt of every command
    completes at the first poll, with exit status 1 in [failing_env]
    and, in [flaky_env], with exit status 1 on the first two attempts
    and 0 from the third on. *)
Definition failing_env : Env :=
  {| spawn := fun _ _ =>
                inr {| polls_left := 0; returncode := 1;
                       output_bytes := [] |};
     decode := fun _ => Some "" |}.

Definition flaky_env : Env :=
  {| spawn := fun _ a =>
                inr {| polls_left := 0;
                       returncode := if (a <? 2)%Z then 1 else 0;
                       output_bytes := [] |};
     decode := fun _ => Some "" |}.

End SchedulerVocabulary.

(* ================================================================== *)
(** ** Vocabulary for further properties of the two executors *)

Section FurtherVocabulary.

(** A command given as a Python list of [str]. *)
Definition py_cmd (words : list string) : pyval :=
  PyList (map PyStr words).

Definition nonempty_words (words : list string) : bool :=
  (0 <? List.length words)%nat.

End FurtherVocabulary.

Section FurtherSchedulerVocabulary.

Import SubprocessPool.

(** The event of launching the command of a tracker. *)
Definition spawn_event (sh out : bool) (c : CMDTracker) : event :=
  Spawn (ident c)
    (if sh then ShellLine (join " " (cmd c)) else Argv (cmd c)) out sh.

(** A tracker after its process was started. *)
Definition launched_with (env : Env) (c : CMDTracker) : CMDTracker :=
  match Popen_init env (ident c) (retries c) with
  | inr pr => set_popen (Some pr) c
  | inl _ => c
  end.

(** A tracker put back for another attempt. *)
Definition requeued (c : CMDTracker) : CMDTracker :=
  set_popen None (set_retries (retries c + 1) c).

(** The retry counter of a tracker is within the budget. *)
Definition budget_ok (R : Z) (c : CMDTracker) : Prop :=
  (0 <= retries c <= R)%Z.

Definition has_handle (c : CMDTracker) : Prop :=
  exists pr, popen c = Some pr.

(** A running tracker within the budget. *)
Definition budget_running (R : Z) (c : CMDTracker) : Prop :=
  budget_ok R c /\ has_handle c.

(** The last attempt that the budget allows, the same for every
    command. *)
Definition last_attempt (R : Z) : nat -> nat := fun _ => Z.to_nat R.

(** A tracker carries the command queued at its position. *)
Definition job_ok (cmds : list (list string)) (c : CMDTracker) : Prop :=
  nth_error cmds (ident c) = Some (cmd c).

(** The trackers that a run creates for a queue. *)
Definition new_trackers (cmds : list (list string)) : list CMDTracker :=
  map (fun ic => CMDTracker_init (fst ic) (snd ic)) (enumerate cmds).

(** The world in which the loop of a run starts. *)
Definition drained (w : world) : world :=
  {| self := {| cmd_list := [] |}; events := events w |}.

End FurtherSchedulerVocabulary.

Section LaunchFidelityVocabulary.

Import SubprocessPool.

Definition popen_args_eqb (a b : popen_args) : bool :=
  match a, b with
  | Argv x, Argv y => if list_eq_dec string_dec x y then true else false
  | ShellLine x, ShellLine y => (x =? y)%string
  | _, _ => false
  end.

(** The arguments that [Popen] is to receive for a command. *)
Definition popen_args_for (sh : bool) (words : list string) : popen_args :=
  if sh then ShellLine (join " " words) else Argv words.

(** An event is faithful to a queue when it is not a launch, or is the
    launch of a queued command, as it was queued, with the flags of the
    run. *)
Definition faithful (cmds : list (list string)) (sh out : bool) (ev : event)
  : bool :=
  match ev with
  | Spawn i args capture shell =>
      match nth_error cmds i with
      | Some words =>
          popen_args_eqb args (popen_args_for sh words)
          && Bool.eqb capture out && Bool.eqb shell sh
      | None => false
      end
  | _ => true
  end.

Definition unfaithful_count (cmds : list (list string)) (sh out : bool)
  (evs : list event) : nat :=
  List.length (filter (fun ev => negb (faithful cmds sh out ev)) evs).

(** The same as a proposition. *)
Definition launches_as_queued (cmds : list (list string)) (sh out : bool)
  (ev : event) : Prop :=
  match ev with
  | Spawn i args capture shell =>
      exists words,
        nth_error cmds i = Some words
        /\ args = popen_args_for sh words
        /\ capture = out /\ shell = sh
  | _ => True
  end.

End LaunchFidelityVocabulary.

Section TurnVocabulary.

Import SubprocessPool.

(** One turn of the outer loop: the body of the [while], from the two
    lists at its start to the two lists at its end. *)
Definition turn (env : Env) (p : Z) (sh out : bool) (R : Z)
  (to_run running : list CMDTracker)
  : M world (list CMDTracker * list CMDTracker) :=
  started <- start_processes (List.length to_run) env p sh out
               to_run running ;;
  polled <- poll out (snd started) [] [] ;;
  to_run' <- check_completed env out R (snd polled) (fst started) ;;
  ret (to_run', fst polled).

Definition stdout_unset (c : CMDTracker) : Prop := stdout_bytes c = None.

Definition not_log (ev : event) : Prop :=
  match ev with LogInfo _ => False | _ => True end.

End TurnVocabulary.

Section CallPoolFurtherVocabulary.

Import MultiprocessingPool.

(** The line by which the coordinator reports the log of a call. *)
Definition completed_line (log_str : string) : event :=
  LogInfo (" - multiprocessing function call completed - " ++ nl ++ log_str).

Definition nonempty_text (log_str : string) : bool := negb (log_str =? "").

(** A text of white space only. *)
Definition all_space (s : string) : bool :=
  forallb isspace (list_ascii_of_string s).

(** A callable for the examples that logs blanks and a line break and
    returns. *)
Definition blank_env : Env :=
  {| invoke := fun _ _ => {| logged := "   " ++ nl; raised := None |};
     log_last_error := fun _ => "";
     transfer := fun _ => Delivered |}.

(** A callable that logs a word between a next-line character (code
    point 133) and a no-break space (code point 160), and returns. *)
Definition padded_env : Env :=
  {| invoke := fun _ _ =>
                 {| logged := String (ascii_of_nat 133)
                                ("hello" ++ String (ascii_of_nat 160) "");
                    raised := None |};
     log_last_error := fun _ => "";
     transfer := fun _ => Delivered |}.

End CallPoolFurtherVocabulary.

Section LogCountVocabulary.

Import SubprocessPool.

(** The number of lines that a trace sends to [logging]. *)
Definition log_count (evs : list event) : nat :=
  List.length
    (filter (fun ev => match ev with LogInfo _ => true | _ => false end) evs).

End LogCountVocabulary.

(* ================================================================== *)
(** ** Properties of the call pool *)

Section CallPoolFacts.

Import MultiprocessingPool.

Lemma call_with_events_nil (w : world) : call_with_events w [] = w.
Proof. destruct w; unfold call_with_events; simpl; now rewrite app_nil_r. Qed.

Lemma call_with_events_app (w : world) (a b : list event) :
  call_with_events (call_with_events w a) b = call_with_events w (a ++ b).
Proof. unfold call_with_events; simpl; now rewrite app_assoc. Qed.

Lemma call_emit_spec (ev : event) (w : world) :
  emit ev w = (call_with_events w [ev], inr tt).
Proof. reflexivity. Qed.

Lemma dispatch_spec (calls : list FunctionCall) (w : world) :
  for_each calls (fun function_call => emit (ApplyAsync function_call)) w
  = (call_with_events w (map ApplyAsync calls), inr tt).
Proof.
  revert w; induction calls as [|fc calls IH]; intro w; simpl.
  - now rewrite call_with_events_nil.
  - unfold bind; rewrite call_emit_spec, IH, call_with_events_app; reflexivity.
Qed.

Lemma get_results_spec (env : Env) (calls : list FunctionCall) (k : nat)
  (w : world) :
  get_results env (combine (seq k (List.length calls)) calls) w
  = match collection_of (map (result_of env) calls) with
    | AllArrived results =>
        (call_with_events w (map ResultGet (seq k (List.length calls))),
         inr (Some results))
    | CutShort j e =>
        (call_with_events w (map ResultGet (seq k (S j))), inl e)
    | Stuck j =>
        (call_with_events w (map ResultGet (seq k (S j))), inr None)
    end.
Proof.
  revert k w; induction calls as [|fc calls IH]; intros k w.
  - cbn. now rewrite call_with_events_nil.
  - cbn [List.length seq combine get_results map collection_of].
    unfold bind at 1. unfold result_get at 1. unfold bind at 1.
    rewrite call_emit_spec. cbn [fst snd].
    destruct (result_of env fc) as [result|e|].
    + unfold ret at 1. unfold bind at 1. rewrite IH.
      destruct (collection_of (map (result_of env) calls)) as [results|j e|j];
        rewrite call_with_events_app; reflexivity.
    + reflexivity.
    + reflexivity.
Qed.

Lemma log_loop_spec (results : list (string * bool)) (w : world) :
  for_each results log_and_check w
  = (call_with_events w (logged_lines results),
     if any_error results then inl batch_error else inr tt).
Proof.
  revert w; induction results as [|[log_str error_caught] rest IH];
    intro w; simpl.
  - now rewrite call_with_events_nil.
  - cbn [for_each logged_lines]. unfold any_error. cbn [existsb snd].
    fold (any_error rest).
    unfold bind at 1. unfold log_and_check. unfold bind at 1.
    destruct (negb (log_str =? "")); destruct error_caught;
      rewrite ?call_emit_spec; unfold ret, raise; cbn [orb];
      rewrite ?IH, ?call_with_events_app, ?app_nil_r, ?call_with_events_nil;
      reflexivity.
Qed.

(** What a run with an accepted number of processes does, in full. *)
Lemma run_processes_accepted (env : Env) (processes : pyval) (w : world) :
  isinstance processes TInt = true ->
  (1 <= int_value processes <= 36)%Z ->
  let calls := function_call_list (self w) in
  run_processes env processes w
  = match collection_of (results_of env w) with
    | AllArrived results =>
        (call_with_events w
           (PoolCreate (int_value processes)
              :: map ApplyAsync calls
              ++ map ResultGet (seq 0 (List.length calls))
              ++ logged_lines results
              ++ (if any_error results then [] else [PoolClose])),
         if any_error results then inl batch_error else inr Returned)
    | CutShort j e =>
        (call_with_events w
           (PoolCreate (int_value processes)
              :: map ApplyAsync calls
              ++ map ResultGet (seq 0 (S j))
              ++ []),
         inl e)
    | Stuck j =>
        (call_with_events w
           (PoolCreate (int_value processes)
              :: map ApplyAsync calls
              ++ map ResultGet (seq 0 (S j))
              ++ []),
         inr Blocked)
    end.
Proof.
  intros Hint Hp calls. unfold run_processes. rewrite Hint.
  unfold assert_ at 1. unfold bind at 1. unfold ret at 1.
  replace ((0 <? int_value processes)%Z && (int_value processes <? 37)%Z)
    with true
    by (symmetry; apply andb_true_intro; split; apply Z.ltb_lt; lia).
  unfold assert_ at 1. unfold bind at 1. unfold ret at 1.
  unfold bind at 1. rewrite call_emit_spec.
  unfold bind at 1. unfold get_function_call_list. cbn [self call_with_events].
  fold calls.
  unfold bind at 1. rewrite dispatch_spec.
  unfold bind at 1. cbn [self call_with_events]. rewrite get_results_spec.
  unfold results_of. fold calls.
  destruct (collection_of (map (result_of env) calls)) as [results|j e|j].
  - unfold bind at 1. rewrite log_loop_spec.
    rewrite !call_with_events_app.
    destruct (any_error results).
    + rewrite app_nil_r. unfold call_with_events. cbn [self events].
      rewrite <- ?app_assoc. reflexivity.
    + unfold bind at 1. rewrite call_emit_spec, call_with_events_app.
      unfold ret. unfold call_with_events. cbn [self events].
      rewrite <- ?app_assoc. reflexivity.
  - rewrite !call_with_events_app, app_nil_r.
    unfold call_with_events. cbn [self events].
    rewrite <- ?app_assoc. reflexivity.
  - rewrite !call_with_events_app, app_nil_r.
    unfold ret. unfold call_with_events. cbn [self events].
    rewrite <- ?app_assoc. reflexivity.
Qed.

(** A run that the validation refuses changes nothing. *)
Lemma run_processes_refused (env : Env) (processes : pyval) (w : world) :
  isinstance processes TInt = false
  \/ (int_value processes < 1 \/ 36 < int_value processes)%Z ->
  exists msg, run_processes env processes w = (w, inl (AssertionError msg)).
Proof.
  intros H. unfold run_processes.
  destruct (isinstance processes TInt) eqn:Hint.
  - destruct H as [H|H]; [discriminate|].
    unfold assert_ at 1. unfold bind at 1. unfold ret at 1.
    replace ((0 <? int_value processes)%Z && (int_value processes <? 37)%Z)
      with false.
    + eexists. reflexivity.
    + symmetry. apply andb_false_iff.
      destruct H; [left; apply Z.ltb_ge | right; apply Z.ltb_ge]; lia.
  - eexists. reflexivity.
Qed.


(** *** How the collection of the results ends *)

Lemma collection_all (arrivals : list arrival) :
  (forall a, In a arrivals -> exists result, a = Arrives result) ->
  collection_of arrivals = AllArrived (map arrived arrivals).
Proof.
  induction arrivals as [|a rest IH]; intro H; [reflexivity|].
  destruct (H a (or_introl eq_refl)) as [result ->].
  cbn [collection_of map arrived].
  rewrite IH; [reflexivity|]. intros a' Ha'. apply H. right. exact Ha'.
Qed.


Lemma collection_cut (arrivals : list arrival) (k : nat) (e : pyexc) :
  collection_of arrivals = CutShort k e ->
  nth_error arrivals k = Some (Raises e)
  /\ forall i a, i < k -> nth_error arrivals i = Some a ->
                 exists result, a = Arrives result.
Proof.
  revert k; induction arrivals as [|a rest IH]; intros k H; [discriminate|].
  destruct a as [result|e0|]; cbn [collection_of] in H; try discriminate.
  - destruct (collection_of rest) as [rs|j e1|j]; try discriminate.
    injection H as <- <-. destruct (IH j eq_refl) as [Hn Hb].
    split; [exact Hn|]. intros [|i] a Hi Ha.
    + injection Ha as <-. eexists; reflexivity.
    + apply (Hb i a); [lia | exact Ha].
  - injection H as <- <-. split; [reflexivity|]. intros i a Hi. lia.
Qed.


Lemma nth_error_results (env : Env) (calls : list FunctionCall) (k : nat)
  (a : arrival) :
  nth_error (map (result_of env) calls) k = Some a ->
  exists fc, nth_error calls k = Some fc /\ result_of env fc = a.
Proof.
  rewrite nth_error_map. destruct (nth_error calls k) as [fc|]; [|discriminate].
  intro H. injection H as <-. exists fc. split; reflexivity.
Qed.



Lemma result_of_raises (env : Env) (fc : FunctionCall) (e : pyexc) :
  result_of env fc = Raises e ->
  exists f, transfer env fc = Refused f /\ e = exception_of_pickling_error f.
Proof.
  unfold result_of. destruct (transfer env fc) as [|f|].
  - destruct (_call_func_and_return_log_and_error_caught env fc); discriminate.
  - intro H. injection H as <-. exists f. split; reflexivity.
  - discriminate.
Qed.












(** The queue of the call pool is the same after a run as before it. *)
Lemma call_pool_run_keeps_queue (env : Env) (processes : pyval) (w : world) :
  self (fst (run_processes env processes w)) = self w.
Proof.
  destruct (isinstance processes TInt) eqn:Hint.
  - destruct (Z_lt_dec (int_value processes) 1) as [Hlo|Hlo];
      [|destruct (Z_lt_dec 36 (int_value processes)) as [Hhi|Hhi]].
    + destruct (run_processes_refused env processes w) as [msg Hr];
        [right; left; exact Hlo | rewrite Hr; reflexivity].
    + destruct (run_processes_refused env processes w) as [msg Hr];
        [right; right; exact Hhi | rewrite Hr; reflexivity].
    + rewrite (run_processes_accepted env processes w Hint) by lia.
      destruct (collection_of _); reflexivity.
  - destruct (run_processes_refused env processes w) as [msg Hr];
      [left; exact Hint | rewrite Hr; reflexivity].
Qed.

(** C1, on the call pool: [run_processes] never empties
    [function_call_list].  A pool that has run the batch [quiet_success]
    to completion still holds it; after adding [noisy_failure] a second
    run dispatches both calls, where a first run on a new pool holding
    only [noisy_failure] dispatches one. *)
Theorem call_pool_keeps_earlier_batch :
  let first :=
    run_processes example_env (PyInt 2) (fresh_call_pool [quiet_success]) in
  let again :=
    (on_pool (add_function_call (Instance noisy_failure)) ;;;
     run_processes example_env (PyInt 2))
      {| self := self (fst first); events := [] |} in
  let alone :=
    run_processes example_env (PyInt 2) (fresh_call_pool [noisy_failure]) in
  snd first = inr Returned
  /\ function_call_list (self (fst first)) = [quiet_success]
  /\ events (fst again)
     = [PoolCreate 2; ApplyAsync quiet_success; ApplyAsync noisy_failure;
        ResultGet 0; ResultGet 1;
        LogInfo (" - multiprocessing function call completed - "
                   ++ nl ++ "second call was fine");
        LogInfo (" - multiprocessing function call completed - "
                   ++ nl ++ "first call failed")]
  /\ events (fst alone)
     = [PoolCreate 2; ApplyAsync noisy_failure; ResultGet 0;
        LogInfo (" - multiprocessing function call completed - "
                   ++ nl ++ "first call failed")].
Proof. vm_compute. repeat split. Qed.

(** C2, on a batch of two calls of which the first one raises: the run
    raises the batch error after it has logged the text of the first
    result, and the non-empty text of the second result, which was
    collected, is never logged. *)
Theorem call_pool_error_hides_later_logs :
  let out :=
    run_processes example_env (PyInt 2)
      (fresh_call_pool [noisy_failure; quiet_success]) in
  _call_func_and_return_log_and_error_caught example_env quiet_success
  = inr ("second call was fine", false)
  /\ snd out = inl batch_error
  /\ events (fst out)
     = [PoolCreate 2; ApplyAsync noisy_failure; ApplyAsync quiet_success;
        ResultGet 0; ResultGet 1;
        LogInfo (" - multiprocessing function call completed - "
                   ++ nl ++ "first call failed")]
  /\ ~ In (LogInfo (" - multiprocessing function call completed - "
                      ++ nl ++ "second call was fine"))
         (events (fst out)).
Proof.
  vm_compute. repeat split.
  intro H. repeat (destruct H as [H|H]; [discriminate H|]). exact H.
Qed.

(** C3, on a batch whose only call raises: the run raises the batch
    error and the pool is not closed, whereas the run of a batch whose
    only call returns ends by closing the pool. *)
Theorem call_pool_not_closed_on_failure :
  let failed :=
    run_processes example_env (PyInt 2) (fresh_call_pool [noisy_failure]) in
  let passed :=
    run_processes example_env (PyInt 2) (fresh_call_pool [quiet_success]) in
  snd failed = inl batch_error
  /\ ~ In PoolClose (events (fst failed))
  /\ snd passed = inr Returned
  /\ In PoolClose (events (fst passed)).
Proof.
  vm_compute. repeat split.
  - intro H. repeat (destruct H as [H|H]; [discriminate H|]). exact H.
  - do 4 right. left. reflexivity.
Qed.

End CallPoolFacts.

(* ================================================================== *)
(** ** Validation: at submission and at the start of a run *)

Section SubmissionFacts.

Import SubprocessPool.

Lemma check_types_strs (items : list pyval) :
  match check_types (map (fun cs => ("cmd str", cs, TStr)) items) with
  | inr _ => forallb (fun cs => isinstance cs TStr) items = true
  | inl e => forallb (fun cs => isinstance cs TStr) items = false
             /\ exists msg, e = ValidationError msg
  end.
Proof.
  induction items as [|x items IH]; cbn [map check_types forallb].
  - reflexivity.
  - destruct (isinstance x TStr); cbn [andb].
    + exact IH.
    + split; [reflexivity | eexists; reflexivity].
Qed.

Lemma add_command_valid (cmd : pyval) (s : t) :
  valid_cmd cmd = true ->
  add_command cmd s = ({| cmd_list := cmd_list s ++ [cmd_words cmd] |}, inr tt).
Proof.
  unfold valid_cmd. intro H.
  apply andb_true_iff in H. destruct H as [H Hlen].
  apply andb_true_iff in H. destruct H as [Hlist Hstrs].
  unfold add_command. cbn [check_types]. rewrite Hlist.
  unfold bind at 1. unfold lift at 1.
  unfold bind at 1. unfold lift at 1.
  pose proof (check_types_strs (list_items cmd)) as Hc.
  destruct (check_types _) as [e|[]].
  - destruct Hc as [Hc _]. congruence.
  - unfold bind at 1. rewrite Hlen. reflexivity.
Qed.

Lemma add_command_invalid (cmd : pyval) (s : t) :
  valid_cmd cmd = false ->
  exists e, add_command cmd s = (s, inl e) /\ is_validation_error e = true.
Proof.
  unfold valid_cmd. intro H. unfold add_command. cbn [check_types].
  destruct (isinstance cmd TList) eqn:Hlist.
  - unfold bind at 1. unfold lift at 1.
    unfold bind at 1. unfold lift at 1.
    pose proof (check_types_strs (list_items cmd)) as Hc.
    destruct (check_types _) as [e|[]].
    + destruct Hc as [_ [msg ->]]. eexists. split; reflexivity.
    + rewrite Hc in H. cbn [andb] in H. unfold bind at 1. rewrite H.
      eexists. split; reflexivity.
  - eexists. split; reflexivity.
Qed.

Lemma add_commands_stop_at_first_invalid
  (pre : list pyval) (bad : pyval) (post : list pyval) (s : t) :
  forallb valid_cmd pre = true ->
  valid_cmd bad = false ->
  exists e,
    for_each (pre ++ bad :: post) add_command s
    = ({| cmd_list := cmd_list s ++ map cmd_words pre |}, inl e)
    /\ is_validation_error e = true.
Proof.
  revert s. induction pre as [|c pre IH]; intros s Hpre Hbad.
  - cbn [app for_each map]. unfold bind.
    destruct (add_command_invalid bad s Hbad) as [e [He Hv]].
    rewrite He. exists e. rewrite app_nil_r. destruct s. split; auto.
  - cbn [forallb] in Hpre. apply andb_true_iff in Hpre.
    destruct Hpre as [Hc Hpre].
    cbn [app for_each map]. unfold bind at 1.
    rewrite (add_command_valid c s Hc).
    destruct (IH {| cmd_list := cmd_list s ++ [cmd_words c] |} Hpre Hbad)
      as [e [He Hv]].
    rewrite He. exists e. cbn [cmd_list]. rewrite <- app_assoc.
    split; auto.
Qed.

(** C10: [add_list_of_commands] is not atomic.  When the element at
    position [k] of the list is the first one that [add_command]
    refuses (the [k] elements before it are non-empty lists of [str]),
    the call raises a validation error and the queue afterwards is the
    queue before followed by those [k] commands, in order. *)
Theorem add_list_of_commands_not_atomic
  (pre : list pyval) (bad : pyval) (post : list pyval) (s : t) :
  forallb valid_cmd pre = true ->
  valid_cmd bad = false ->
  exists e,
    add_list_of_commands (PyList (pre ++ bad :: post)) s
    = ({| cmd_list := cmd_list s ++ map cmd_words pre |}, inl e)
    /\ is_validation_error e = true
    /\ List.length (map cmd_words pre) = List.length pre.
Proof.
  intros Hpre Hbad. unfold add_list_of_commands.
  cbn [check_types isinstance list_items].
  unfold bind at 1. unfold lift at 1.
  destruct (add_commands_stop_at_first_invalid pre bad post s Hpre Hbad)
    as [e [He Hv]].
  exists e. rewrite He. repeat split; auto. apply length_map.
Qed.

Lemma add_list_of_commands_not_atomic_witness :
  exists e,
    add_list_of_commands
      (PyList ([PyList [PyStr "ls"; PyStr "-l"]; PyList [PyStr "pwd"]]
                 ++ PyList [] :: [PyList [PyStr "date"]]))
      init
    = ({| cmd_list := [] ++ [["ls"; "-l"]; ["pwd"]] |}, inl e)
    /\ is_validation_error e = true.
Proof.
  destruct (add_list_of_commands_not_atomic
              [PyList [PyStr "ls"; PyStr "-l"]; PyList [PyStr "pwd"]]
              (PyList []) [PyList [PyStr "date"]] init eq_refl eq_refl)
    as [e [He [Hv _]]].
  exists e. split; [exact He | exact Hv].
Defined.

End SubmissionFacts.

(* ================================================================== *)
(** ** Properties of the command scheduler: the phases of the loop *)

Section SchedulerPhases.

Import SubprocessPool.

Lemma sched_with_events_nil (w : world) : sched_with_events w [] = w.
Proof. destruct w; unfold sched_with_events; simpl; now rewrite app_nil_r. Qed.

Lemma sched_with_events_app (w : world) (a b : list event) :
  sched_with_events (sched_with_events w a) b = sched_with_events w (a ++ b).
Proof. unfold sched_with_events; simpl; now rewrite app_assoc. Qed.

Lemma sched_emit_spec (ev : event) (w : world) :
  emit ev w = (sched_with_events w [ev], inr tt).
Proof. reflexivity. Qed.

Lemma pop_None {A : Type} (l : list A) : pop l = None -> l = [].
Proof.
  destruct l as [|x r]; [reflexivity|]. cbn [pop].
  destruct (pop r) as [[r' y]|]; discriminate.
Qed.

Lemma pop_Some {A : Type} (l l' : list A) (y : A) :
  pop l = Some (l', y) -> l = l' ++ [y].
Proof.
  revert l' y. induction l as [|x r IH]; intros l' y H; [discriminate|].
  cbn [pop] in H. destruct (pop r) as [[r' z]|] eqn:E.
  - injection H as <- <-. rewrite (IH r' z eq_refl). reflexivity.
  - injection H as <- <-. rewrite (pop_None r E). reflexivity.
Qed.

(** Starting processes only spawns, and fails only where [Popen] does. *)
Lemma start_processes_sound (env : Env) (p : Z) (sh out : bool) (n : nat) :
  forall (to_run running : list CMDTracker) (w : world),
  exists evs,
    fst (start_processes n env p sh out to_run running w)
    = sched_with_events w evs
    /\ Forall is_spawn evs
    /\ match snd (start_processes n env p sh out to_run running w) with
       | inl e => is_launch_exception e
       | inr _ => True
       end.
Proof.
  induction n as [|n IH]; intros to_run running w; cbn [start_processes].
  - exists []. rewrite sched_with_events_nil. repeat split; constructor.
  - destruct (Z.of_nat (List.length running) <? p)%Z;
      [destruct (pop to_run) as [[to_run' c]|]|];
      try (exists []; rewrite sched_with_events_nil;
           repeat split; constructor).
    unfold bind at 1. rewrite sched_emit_spec.
    unfold bind at 1. unfold lift at 1. unfold Popen_init.
    destruct (spawn env (ident c) (retries c)) as [f|pr].
    + eexists. cbn [fst snd]. split; [reflexivity|]. split.
      * repeat constructor.
      * exists f; reflexivity.
    + match goal with
      | |- context [start_processes n env p sh out ?a ?b ?c] =>
          destruct (IH a b c) as [evs [Hw [Hevs Herr]]]
      end.
      eexists. rewrite Hw, sched_with_events_app. split; [reflexivity|].
      split; [|exact Herr]. constructor; [exact I | exact Hevs].
Qed.

(** Polling only communicates, and fails only on a missing handle. *)
Lemma poll_sound (out : bool) (running : list CMDTracker) :
  forall (still completed : list CMDTracker) (w : world),
  exists evs,
    fst (poll out running still completed w) = sched_with_events w evs
    /\ Forall is_communicate evs
    /\ match snd (poll out running still completed w) with
       | inl e => exists msg, e = AttributeError msg
       | inr _ => True
       end.
Proof.
  induction running as [|c rest IH]; intros still completed w; cbn [poll].
  - exists []. rewrite sched_with_events_nil. repeat split; constructor.
  - destruct (popen c) as [pr|].
    + unfold bind at 1. rewrite sched_emit_spec.
      destruct (polls_left pr) as [|k];
        match goal with
        | |- context [poll out rest ?a ?b ?c] =>
            destruct (IH a b c) as [evs [Hw [Hevs Herr]]]
        end;
        (eexists; rewrite Hw, sched_with_events_app;
         split; [reflexivity|]; split; [|exact Herr];
         constructor; [exact I | exact Hevs]).
    + exists []. rewrite sched_with_events_nil.
      repeat split; [constructor|]. eexists; reflexivity.
Qed.

(** Checking the completed processes only logs, and what it raises is an
    error of the scheduling loop. *)
Lemma check_completed_sound (env : Env) (out : bool) (R : Z)
  (completed : list CMDTracker) :
  forall (to_run : list CMDTracker) (w : world),
  exists evs,
    fst (check_completed env out R completed to_run w)
    = sched_with_events w evs
    /\ Forall is_log evs
    /\ match snd (check_completed env out R completed to_run w) with
       | inl e => is_scheduling_error e
       | inr _ => True
       end.
Proof.
  induction completed as [|c rest IH]; intros to_run w;
    cbn [check_completed].
  - exists []. rewrite sched_with_events_nil. repeat split; constructor.
  - destruct (popen c) as [pr|];
      [|exists []; rewrite sched_with_events_nil;
        repeat split; constructor].
    unfold get_std_out_from_tracker.
    destruct (negb (returncode pr =? 0)%Z);
      [destruct (retries c =? R)%Z|].
    + unfold bind at 1. unfold lift at 1.
      destruct (stdout_bytes c) as [b|].
      * unfold bind at 1. rewrite sched_emit_spec. eexists.
        cbn [fst snd raise]. repeat split. repeat constructor.
      * exists []. rewrite sched_with_events_nil.
        repeat split; constructor.
    + apply IH.
    + unfold bind at 1. destruct out.
      * unfold bind at 1. unfold lift at 1.
        destruct (stdout_bytes c) as [b|].
        -- rewrite sched_emit_spec.
           match goal with
           | |- context [check_completed env true R rest ?a ?b] =>
               destruct (IH a b) as [evs [Hw [Hevs Herr]]]
           end.
           eexists. rewrite Hw, sched_with_events_app.
           split; [reflexivity|]. split; [|exact Herr].
           constructor; [exact I | exact Hevs].
        -- exists []. rewrite sched_with_events_nil.
           repeat split; constructor.
      * unfold ret at 1. apply IH.
Qed.

Lemma bind_unfold {S A B : Type} (c : M S A) (k : A -> M S B) (s : S) :
  bind c k s
  = match c s with
    | (s', inl e) => (s', inl e)
    | (s', inr a) => k a s'
    end.
Proof. reflexivity. Qed.

(** The scheduling loop leaves the pool object alone and raises only
    errors of its own. *)
Lemma main_loop_sound (env : Env) (p : Z) (sh out : bool) (R : Z)
  (fuel : nat) :
  forall (to_run running : list CMDTracker) (w : world),
  exists evs,
    fst (main_loop fuel env p sh out R to_run running w)
    = sched_with_events w evs
    /\ match snd (main_loop fuel env p sh out R to_run running w) with
       | inl e => is_launch_exception e \/ is_scheduling_error e
       | inr _ => True
       end.
Proof.
  induction fuel as [|fuel IH]; intros to_run running w; cbn [main_loop];
    destruct ((0 <? List.length to_run)%nat || (0 <? List.length running)%nat);
    try (exists []; rewrite sched_with_events_nil; split;
         [reflexivity | exact I]).
  rewrite bind_unfold.
  destruct (start_processes_sound env p sh out (List.length to_run)
              to_run running w) as [e1 [H1 [_ E1]]].
  destruct (start_processes _ env p sh out to_run running w)
    as [w1 [x|started]]; cbn [fst snd] in *; subst w1.
  { exists e1. split; [reflexivity|]. left. exact E1. }
  rewrite bind_unfold.
  destruct (poll_sound out (snd started) [] [] (sched_with_events w e1))
    as [e2 [H2 [_ E2]]].
  destruct (poll out (snd started) [] [] _) as [w2 [x|polled]];
    cbn [fst snd] in *; subst w2.
  { eexists. rewrite sched_with_events_app. split; [reflexivity|].
    destruct E2 as [msg ->]. right. exact I. }
  rewrite bind_unfold.
  destruct (check_completed_sound env out R (snd polled) (fst started)
              (sched_with_events (sched_with_events w e1) e2))
    as [e3 [H3 [_ E3]]].
  destruct (check_completed env out R _ _ _) as [w3 [x|to_run']];
    cbn [fst snd] in *; subst w3.
  { eexists. rewrite !sched_with_events_app. split; [reflexivity|].
    right. exact E3. }
  destruct (IH to_run' (fst polled)
              (sched_with_events
                 (sched_with_events (sched_with_events w e1) e2) e3))
    as [e4 [H4 E4]].
  eexists. split; [|exact E4].
  rewrite H4, !sched_with_events_app. reflexivity.
Qed.

End SchedulerPhases.

(* ================================================================== *)
(** ** Properties of the command scheduler: a whole run *)

Section SchedulerRuns.

Import SubprocessPool.

(** The trackers that a run creates for the queued commands. *)
Lemma run_processes_accepted_sched (fuel : nat) (env : Env) (p r : Z)
  (sh out : bool) (w : world) :
  (1 <= p <= 36)%Z -> (0 <= r <= 30)%Z ->
  run_processes fuel env (PyInt p) (PyBool sh) (PyBool out) (PyInt r) w
  = main_loop fuel env p sh out r
      (map (fun ic => CMDTracker_init (fst ic) (snd ic))
         (enumerate (cmd_list (self w))))
      []
      {| self := {| cmd_list := [] |}; events := events w |}.
Proof.
  intros Hp Hr. unfold run_processes. cbn [check_types isinstance].
  cbn [int_value bool_value].
  unfold bind at 1. unfold lift at 1.
  replace ((0 <? p)%Z && (p <? 37)%Z) with true
    by (symmetry; apply andb_true_intro; split; apply Z.ltb_lt; lia).
  unfold assert_ at 1. unfold bind at 1. unfold ret at 1.
  replace ((0 <=? r)%Z && (r <=? 30)%Z) with true
    by (symmetry; apply andb_true_intro; split; apply Z.leb_le; lia).
  reflexivity.
Qed.

Lemma run_processes_refused_sched (fuel : nat) (env : Env) (p r : Z)
  (shell output : pyval) (w : world) :
  (p < 1 \/ 36 < p)%Z \/ (r < 0 \/ 30 < r)%Z ->
  exists e,
    run_processes fuel env (PyInt p) shell output (PyInt r) w = (w, inl e)
    /\ is_validation_error e = true.
Proof.
  intro H. unfold run_processes. cbn [check_types isinstance int_value].
  destruct (match shell with PyBool _ => true | _ => false end);
    [|eexists; split; reflexivity].
  destruct (match output with PyBool _ => true | _ => false end);
    [|eexists; split; reflexivity].
  unfold bind at 1. unfold lift at 1.
  destruct ((0 <? p)%Z && (p <? 37)%Z) eqn:Ep;
    [|eexists; split; reflexivity].
  unfold assert_ at 1. unfold bind at 1. unfold ret at 1.
  destruct ((0 <=? r)%Z && (r <=? 30)%Z) eqn:Er;
    [|eexists; split; reflexivity].
  apply andb_true_iff in Ep, Er. destruct Ep as [Ep1 Ep2].
  destruct Er as [Er1 Er2].
  apply Z.ltb_lt in Ep1, Ep2. apply Z.leb_le in Er1, Er2. lia.
Qed.

(** Once the arguments of a run are accepted the queue is emptied,
    however the run ends. *)
Lemma scheduler_run_drains_queue (fuel : nat) (env : Env) (p r : Z)
  (sh out : bool) (w : world) :
  (1 <= p <= 36)%Z -> (0 <= r <= 30)%Z ->
  self (fst (run_processes fuel env (PyInt p) (PyBool sh) (PyBool out)
               (PyInt r) w))
  = init.
Proof.
  intros Hp Hr. rewrite run_processes_accepted_sched by assumption.
  match goal with
  | |- context [main_loop fuel env p sh out r ?a ?b ?c] =>
      destruct (main_loop_sound env p sh out r fuel a b c) as [evs [Hw _]]
  end.
  rewrite Hw. reflexivity.
Qed.

(** On the scheduler a second batch runs as on a new object: after a
    run whose arguments were accepted, adding commands and running
    again gives what adding them to a new scheduler and running gives. *)
Lemma scheduler_rerun_like_first_run (fuel fuel' : nat) (env env' : Env)
  (p r : Z) (sh out : bool) (p' sh' out' r' : pyval)
  (batch : pyval) (w : world) :
  (1 <= p <= 36)%Z -> (0 <= r <= 30)%Z ->
  let after :=
    fst (run_processes fuel env (PyInt p) (PyBool sh) (PyBool out)
           (PyInt r) w) in
  let rerun (pool : t) :=
    let added := fst (add_list_of_commands batch pool) in
    run_processes fuel' env' p' sh' out' r'
      {| self := added; events := [] |} in
  rerun (self after) = rerun init.
Proof.
  intros Hp Hr after rerun. subst after rerun. cbv beta.
  rewrite scheduler_run_drains_queue by assumption. reflexivity.
Qed.

End SchedulerRuns.

Section RunValidation.

(** C8: a run validates its arguments before any work.  For a number of
    processes [p] outside [1, 36] the run of either executor, and for a
    number of retries [r] outside [0, 30] the run of the command
    scheduler, raises a validation error and leaves the world as it
    was: the trace has no new event, so no worker pool was created and no
    process spawned, and the queue is unchanged. *)
Theorem run_validates_before_any_work (p r : Z) :
  ((p < 1 \/ 36 < p)%Z ->
   forall (env : MultiprocessingPool.Env) (w : MultiprocessingPool.world),
   exists e,
     MultiprocessingPool.run_processes env (PyInt p) w = (w, inl e)
     /\ is_validation_error e = true)
  /\ ((p < 1 \/ 36 < p)%Z \/ (r < 0 \/ 30 < r)%Z ->
      forall (fuel : nat) (env : SubprocessPool.Env) (shell output : pyval)
             (w : SubprocessPool.world),
      exists e,
        SubprocessPool.run_processes fuel env (PyInt p) shell output
          (PyInt r) w = (w, inl e)
        /\ is_validation_error e = true).
Proof.
  split.
  - intros Hp env w.
    destruct (run_processes_refused env (PyInt p) w) as [msg Hr];
      [right; exact Hp|].
    eexists. split; [exact Hr | reflexivity].
  - intros H fuel env shell output w.
    apply run_processes_refused_sched. exact H.
Qed.

Lemma run_validates_before_any_work_witness :
  (exists e,
      MultiprocessingPool.run_processes example_env (PyInt 37)
        (fresh_call_pool [quiet_success])
      = (fresh_call_pool [quiet_success], inl e)
      /\ is_validation_error e = true)
  /\ (exists e,
         SubprocessPool.run_processes 5
           {| SubprocessPool.spawn :=
                fun _ _ => inl (SubprocessPool.LaunchOSError "no such file");
              SubprocessPool.decode := fun _ => None |}
           (PyInt 37) (PyBool false) (PyBool true) (PyInt 31)
           (fresh_scheduler [["ls"]])
         = (fresh_scheduler [["ls"]], inl e)
         /\ is_validation_error e = true).
Proof.
  destruct (run_validates_before_any_work 37 31) as [Hcall Hsched].
  split.
  - apply Hcall. right. lia.
  - apply Hsched. left. right. lia.
Defined.

(** C9: malformed submissions fail when they are made, and a run
    raises no validation error for what was accepted.  An empty command
    and a command with an element that is not a [str] are refused by
    [add_command], which leaves the queue as it was; a call descriptor
    with a first argument that is not callable or a second argument that
    is not a tuple is refused by its constructor.  None of the four
    involves a run.  A run whose own arguments are in range never raises
    a validation error, whatever the queue holds. *)
Theorem validation_happens_at_submission :
  (forall s : SubprocessPool.t,
      SubprocessPool.add_command (PyList []) s
      = (s, inl (AssertionError "cmd must not be empty")))
  /\ (forall (items : list pyval) (x : pyval) (s : SubprocessPool.t),
         In x items -> isinstance x TStr = false ->
         exists msg,
           SubprocessPool.add_command (PyList items) s
           = (s, inl (ValidationError msg)))
  /\ (forall func arg_tuple : pyval,
         callable func = false ->
         MultiprocessingPool.FunctionCall_init func arg_tuple
         = inl (AssertionError "func must be a callable function"))
  /\ (forall func arg_tuple : pyval,
         isinstance arg_tuple TTuple = false ->
         exists msg,
           MultiprocessingPool.FunctionCall_init func arg_tuple
           = inl (AssertionError msg))
  /\ (forall (fuel : nat) (env : SubprocessPool.Env) (p r : Z)
             (sh out : bool) (w : SubprocessPool.world) (e : pyexc),
         (1 <= p <= 36)%Z -> (0 <= r <= 30)%Z ->
         snd (SubprocessPool.run_processes fuel env (PyInt p) (PyBool sh)
                (PyBool out) (PyInt r) w) = inl e ->
         is_validation_error e = false)
  /\ (forall (env : MultiprocessingPool.Env) (p : Z)
             (w : MultiprocessingPool.world) (e : pyexc),
         (1 <= p <= 36)%Z ->
         snd (MultiprocessingPool.run_processes env (PyInt p) w) = inl e ->
         is_validation_error e = false).
Proof.
  repeat split.
  - intros items x s Hin Hx. unfold SubprocessPool.add_command.
    cbn [check_types isinstance list_items].
    unfold bind at 1. unfold lift at 1. unfold bind at 1. unfold lift at 1.
    pose proof (check_types_strs items) as Hc.
    destruct (check_types _) as [e|[]].
    + destruct Hc as [_ [msg ->]]. exists msg. reflexivity.
    + rewrite forallb_forall in Hc. rewrite (Hc x Hin) in Hx. discriminate.
  - intros func arg_tuple Hf. unfold MultiprocessingPool.FunctionCall_init.
    rewrite Hf. reflexivity.
  - intros func arg_tuple Ha. unfold MultiprocessingPool.FunctionCall_init.
    rewrite Ha. destruct (callable func); eexists; reflexivity.
  - intros fuel env p r sh out w e Hp Hr.
    rewrite run_processes_accepted_sched by assumption.
    match goal with
    | |- context [SubprocessPool.main_loop fuel env p sh out r ?a ?b ?c] =>
        destruct (main_loop_sound env p sh out r fuel a b c) as [evs [_ He]]
    end.
    intro Hsnd. rewrite Hsnd in He. destruct He as [[f ->]|He].
    + destruct f; reflexivity.
    + destruct e; try contradiction; reflexivity.
  - intros env p w e Hp.
    rewrite (run_processes_accepted env (PyInt p) w eq_refl Hp).
    unfold results_of.
    destruct (collection_of _) as [results|j e0|j] eqn:Hc; cbn [snd].
    + destruct (any_error _); [|discriminate].
      intro H. injection H as <-. reflexivity.
    + intro H. injection H as <-.
      destruct (collection_cut _ _ _ Hc) as [Hn _].
      destruct (nth_error_results _ _ _ _ Hn) as [fc [_ Hr]].
      destruct (result_of_raises _ _ _ Hr) as [f [_ ->]].
      destruct f; reflexivity.
    + discriminate.
Qed.

Lemma validation_happens_at_submission_witness :
  (exists msg,
      SubprocessPool.add_command (PyList [PyStr "ls"; PyInt 3])
        SubprocessPool.init
      = (SubprocessPool.init, inl (ValidationError msg)))
  /\ MultiprocessingPool.FunctionCall_init (PyStr "f") (PyTuple [])
     = inl (AssertionError "func must be a callable function")
  /\ (exists msg,
         MultiprocessingPool.FunctionCall_init (PyFunc "f") (PyList [])
         = inl (AssertionError msg)).
Proof.
  destruct validation_happens_at_submission
    as [_ [Hstr [Hfunc [Htuple _]]]].
  split; [|split].
  - apply (Hstr [PyStr "ls"; PyInt 3] (PyInt 3)).
    + right. left. reflexivity.
    + reflexivity.
  - apply Hfunc. reflexivity.
  - apply Htuple. reflexivity.
Defined.

End RunValidation.

(* ================================================================== *)
(** ** The retry budget *)

Section RetryBudget.

Import SubprocessPool.

(** A completed command that failed with its counter at the limit makes
    the check raise, wherever it stands among the completed ones. *)
Lemma check_completed_fatal (env : Env) (out : bool) (R : Z)
  (completed : list CMDTracker) :
  forall (to_run : list CMDTracker) (w : world) (t : CMDTracker)
         (pr : Popen),
  In t completed -> popen t = Some pr -> returncode pr <> 0%Z ->
  retries t = R ->
  exists e, snd (check_completed env out R completed to_run w) = inl e.
Proof.
  induction completed as [|c rest IH]; intros to_run w t pr Hin Hp Hrc Hr;
    [contradiction|].
  cbn [check_completed]. destruct (popen c) as [pc|] eqn:Hpc;
    [|eexists; reflexivity].
  unfold get_std_out_from_tracker.
  destruct (negb (returncode pc =? 0)%Z) eqn:Hneg;
    [destruct (retries c =? R)%Z eqn:Hlim|].
  - rewrite bind_unfold. unfold lift at 1.
    destruct (stdout_bytes c); eexists; reflexivity.
  - destruct Hin as [->|Hin].
    + apply Z.eqb_neq in Hlim. contradiction.
    + eapply IH; eassumption.
  - destruct Hin as [->|Hin].
    + rewrite Hp in Hpc. injection Hpc as ->.
      apply negb_false_iff, Z.eqb_eq in Hneg. contradiction.
    + rewrite bind_unfold. destruct out.
      * rewrite bind_unfold. unfold lift at 1.
        destruct (stdout_bytes c); [|eexists; reflexivity].
        rewrite sched_emit_spec. eapply IH; eassumption.
      * unfold ret at 1. eapply IH; eassumption.
Qed.

(** C5: the scheduler fails fast.  Take any turn of the scheduling loop
    in which the launches and the polls went through, and let one of the
    commands found completed have a non-zero exit status with its retry
    counter equal to the budget.  Then the run raises in this very turn,
    whatever bound is put on the number of turns: after the polls that
    found the failure the trace only gains log lines, so no waiting
    command is launched and no running one is waited on any more. *)
Theorem fatal_failure_raises_immediately
  (fuel : nat) (env : Env) (p : Z) (sh out : bool) (R : Z)
  (to_run running : list CMDTracker) (w w1 w2 : world)
  (started polled : list CMDTracker * list CMDTracker)
  (t : CMDTracker) (pr : Popen) :
  start_processes (List.length to_run) env p sh out to_run running w
  = (w1, inr started) ->
  poll out (snd started) [] [] w1 = (w2, inr polled) ->
  In t (snd polled) ->
  popen t = Some pr -> returncode pr <> 0%Z -> retries t = R ->
  exists e logs,
    main_loop (S fuel) env p sh out R to_run running w
    = (sched_with_events w2 logs, inl e)
    /\ Forall is_log logs
    /\ is_scheduling_error e.
Proof.
  intros Hstart Hpoll Hin Hp Hrc Hr.
  assert (Hcond : (0 <? List.length to_run)%nat
                  || (0 <? List.length running)%nat = true).
  { destruct to_run as [|a to_run]; [|reflexivity].
    destruct running as [|b running]; [|reflexivity].
    cbn in Hstart. injection Hstart as <- <-.
    cbn in Hpoll. injection Hpoll as <- <-. contradiction. }
  cbn [main_loop]. rewrite Hcond.
  rewrite bind_unfold, Hstart, bind_unfold, Hpoll, bind_unfold.
  destruct (check_completed_fatal env out R (snd polled) (fst started) w2
              t pr Hin Hp Hrc Hr) as [e He].
  destruct (check_completed_sound env out R (snd polled) (fst started) w2)
    as [logs [Hw [Hlogs Herr]]].
  rewrite He in Herr.
  destruct (check_completed env out R (snd polled) (fst started) w2)
    as [w3 res]. cbn [fst snd] in *. subst w3 res.
  exists e, logs. repeat split; assumption.
Qed.

End RetryBudget.

(* ================================================================== *)
(** ** Commands that succeed within the retry budget *)

Section SuccessWithinBudget.

Import SubprocessPool.

Variables (env : Env) (R : Z) (K : nat -> nat) (n : nat).
Variables (p : Z) (sh out : bool).

Hypothesis Hsucc : forall i, (i < n)%nat -> succeeds_at env R K i.
Hypothesis Hp : (1 <= p)%Z.

Lemma total_cost_app (cost : CMDTracker -> nat) (a b : list CMDTracker) :
  total_cost cost (a ++ b) = total_cost cost a + total_cost cost b.
Proof. unfold total_cost. now rewrite map_app, list_sum_app. Qed.

Lemma total_cost_one (cost : CMDTracker -> nat) (c : CMDTracker) :
  total_cost cost [c] = cost c.
Proof. unfold total_cost. cbn. lia. Qed.

(** What the attempt of a waiting command will be. *)
Lemma attempt_outcome (c : CMDTracker) :
  waiting_ok K n c ->
  exists p0,
    spawn env (ident c) (retries c) = inr p0
    /\ ((retries c = Z.of_nat (K (ident c)) /\ returncode p0 = 0%Z)
        \/ ((retries c < Z.of_nat (K (ident c)))%Z
            /\ returncode p0 <> 0%Z /\ retries c <> R)).
Proof.
  intros [Hid Hr]. destruct (Hsucc _ Hid) as [HR [[p0 [Hs Hz]] Hfail]].
  destruct (Z.eq_dec (retries c) (Z.of_nat (K (ident c)))) as [E|E].
  - exists p0. rewrite E. split; [exact Hs|]. left. split; [reflexivity|exact Hz].
  - destruct (Hfail (Z.to_nat (retries c))) as [p1 [Hs1 Hnz]]; [lia|].
    rewrite Z2Nat.id in Hs1 by lia.
    exists p1. split; [exact Hs1|]. right. repeat split; [lia|exact Hnz|lia].
Qed.

Lemma launch_cost (c : CMDTracker) (p0 : Popen) :
  (0 <= retries c)%Z ->
  spawn env (ident c) (retries c) = inr p0 ->
  running_cost env K (set_popen (Some p0) c) = waiting_cost env K c.
Proof.
  intros Hr Hs. unfold running_cost, waiting_cost.
  cbn [set_popen popen retries ident wait_cost].
  unfold polls_of. rewrite Z2Nat.id by lia. rewrite Hs. reflexivity.
Qed.

Lemma start_processes_ok (n0 : nat) :
  forall (to_run running : list CMDTracker) (w : world),
  Forall (waiting_ok K n) to_run ->
  Forall (running_ok env K n) running ->
  exists evs to_run' running',
    start_processes n0 env p sh out to_run running w
    = (sched_with_events w evs, inr (to_run', running'))
    /\ Forall (waiting_ok K n) to_run'
    /\ Forall (running_ok env K n) running'
    /\ total_cost (waiting_cost env K) to_run'
       + total_cost (running_cost env K) running'
       = total_cost (waiting_cost env K) to_run
         + total_cost (running_cost env K) running
    /\ ((List.length to_run <= n0)%nat ->
        to_run <> [] \/ running <> [] -> running' <> []).
Proof.
  induction n0 as [|n0 IH]; intros to_run running w Hw Hr;
    cbn [start_processes].
  - exists [], to_run, running. rewrite sched_with_events_nil.
    repeat split; auto. intros Hlen [H|H]; [|exact H].
    destruct to_run; [contradiction | cbn in Hlen; lia].
  - destruct (Z.of_nat (List.length running) <? p)%Z eqn:Hfree.
    + destruct (pop to_run) as [[to_run' c]|] eqn:Hpop.
      * apply pop_Some in Hpop. subst to_run.
        apply Forall_app in Hw. destruct Hw as [Hw' Hc].
        inversion Hc as [|? ? Hcok _]; subst.
        destruct (attempt_outcome c Hcok) as [p0 [Hs Hcase]].
        rewrite bind_unfold, sched_emit_spec, bind_unfold.
        unfold lift at 1. unfold Popen_init. rewrite Hs.
        assert (Hrun : Forall (running_ok env K n)
                         (running ++ [set_popen (Some p0) c])).
        { apply Forall_app. split; [exact Hr|]. constructor; [|constructor].
          split; [exact Hcok|]. exists p0, p0. repeat split. exact Hs. }
        destruct (IH to_run' (running ++ [set_popen (Some p0) c])
                    (sched_with_events w
                       [Spawn (ident c)
                          (if sh then ShellLine (join " " (cmd c))
                           else Argv (cmd c)) out sh])
                    Hw' Hrun)
          as [evs [tr' [rn' [Heq [Hw2 [Hr2 [Hcost Hne]]]]]]].
        eexists _, tr', rn'. rewrite Heq, sched_with_events_app.
        split; [reflexivity|]. split; [exact Hw2|]. split; [exact Hr2|].
        split.
        -- rewrite Hcost, !total_cost_app, !total_cost_one.
           rewrite launch_cost; [lia | apply Hcok | exact Hs].
        -- intros Hlen _. apply Hne.
           ++ rewrite length_app in Hlen. cbn in Hlen. lia.
           ++ right. destruct running; discriminate.
      * apply pop_None in Hpop. subst to_run.
        exists [], [], running. rewrite sched_with_events_nil.
        repeat split; auto. intros _ [H|H]; [contradiction | exact H].
    + exists [], to_run, running. rewrite sched_with_events_nil.
      repeat split; auto. intros _ _ ->. cbn in Hfree.
      apply Z.ltb_ge in Hfree. lia.
Qed.

Lemma total_cost_cons (cost : CMDTracker -> nat) (c : CMDTracker)
  (l : list CMDTracker) :
  total_cost cost (c :: l) = cost c + total_cost cost l.
Proof. reflexivity. Qed.

Lemma running_cost_completed (c : CMDTracker) (b : option (list Byte.byte)) :
  running_cost env K (set_stdout_bytes b c) = running_cost env K c.
Proof. reflexivity. Qed.

Lemma running_cost_timed_out (c : CMDTracker) (pr : Popen) (k : nat) :
  popen c = Some pr -> polls_left pr = S k ->
  S (running_cost env K
       (set_popen (Some {| polls_left := k; returncode := returncode pr;
                           output_bytes := output_bytes pr |}) c))
  = running_cost env K c.
Proof.
  intros Hpo Hk. unfold running_cost.
  cbn [set_popen popen retries ident polls_left]. rewrite Hpo, Hk.
  reflexivity.
Qed.

Lemma poll_ok (running : list CMDTracker) :
  forall (still completed : list CMDTracker) (w : world),
  Forall (running_ok env K n) running ->
  exists evs s_new c_new,
    poll out running still completed w
    = (sched_with_events w evs, inr (still ++ s_new, completed ++ c_new))
    /\ Forall (running_ok env K n) s_new
    /\ Forall (completed_ok env K n out) c_new
    /\ total_cost (running_cost env K) s_new + List.length s_new
       + total_cost (running_cost env K) c_new
       = total_cost (running_cost env K) running
    /\ List.length s_new + List.length c_new = List.length running.
Proof.
  induction running as [|c rest IH]; intros still completed w Hr;
    cbn [poll].
  - exists [], [], []. rewrite sched_with_events_nil, !app_nil_r.
    repeat split; constructor.
  - inversion Hr as [|? ? Hc Hrest]; subst.
    destruct Hc as [Hcw [pr [p0 [Hpo [Hs Hrc]]]]]. rewrite Hpo.
    rewrite bind_unfold, sched_emit_spec.
    destruct (polls_left pr) as [|k] eqn:Hk.
    + match goal with
      | |- context [poll out rest ?a ?b ?c] =>
          destruct (IH a b c Hrest)
            as [evs [s_new [c_new [Heq [Hs2 [Hc2 [Hcost Hlen]]]]]]]
      end.
      eexists _, s_new, (_ :: c_new).
      rewrite Heq, sched_with_events_app, <- app_assoc.
      split; [reflexivity|]. split; [exact Hs2|]. split.
      * constructor; [|exact Hc2]. split; [|split].
        -- split; [exact Hcw|]. exists pr, p0. repeat split; assumption.
        -- exists pr. split; [exact Hpo | exact Hk].
        -- intros ->. eexists. reflexivity.
      * split; [|cbn [List.length]; lia].
        rewrite !total_cost_cons, running_cost_completed. lia.
    + match goal with
      | |- context [poll out rest ?a ?b ?c] =>
          destruct (IH a b c Hrest)
            as [evs [s_new [c_new [Heq [Hs2 [Hc2 [Hcost Hlen]]]]]]]
      end.
      eexists _, (_ :: s_new), c_new.
      rewrite Heq, sched_with_events_app, <- app_assoc.
      split; [reflexivity|]. split.
      * constructor; [|exact Hs2]. split; [exact Hcw|].
        eexists _, p0. repeat split; assumption.
      * split; [exact Hc2|]. split; [|cbn [List.length]; lia].
        rewrite !total_cost_cons.
        pose proof (running_cost_timed_out c pr k Hpo Hk) as Hq.
        cbn [List.length]. lia.
Qed.

Lemma requeue_cost (c : CMDTracker) (pr : Popen) :
  popen c = Some pr -> polls_left pr = 0%nat ->
  (0 <= retries c < Z.of_nat (K (ident c)))%Z ->
  S (waiting_cost env K (set_popen None (set_retries (retries c + 1) c)))
  = running_cost env K c.
Proof.
  intros Hpo Hk Hr. unfold waiting_cost, running_cost.
  cbn [set_popen set_retries popen retries ident]. rewrite Hpo, Hk.
  replace (Z.to_nat (retries c + 1)) with (S (Z.to_nat (retries c))) by lia.
  replace (K (ident c) - Z.to_nat (retries c))%nat
    with (S (K (ident c) - S (Z.to_nat (retries c)))) by lia.
  reflexivity.
Qed.

Lemma success_cost (c : CMDTracker) (pr : Popen) :
  popen c = Some pr -> polls_left pr = 0%nat ->
  retries c = Z.of_nat (K (ident c)) ->
  running_cost env K c = 1%nat.
Proof.
  intros Hpo Hk Hr. unfold running_cost. rewrite Hpo, Hk, Hr, Nat2Z.id.
  rewrite Nat.sub_diag. reflexivity.
Qed.

Lemma check_completed_ok (completed : list CMDTracker) :
  forall (to_run : list CMDTracker) (w : world),
  Forall (completed_ok env K n out) completed ->
  Forall (waiting_ok K n) to_run ->
  exists evs to_run',
    check_completed env out R completed to_run w
    = (sched_with_events w evs, inr to_run')
    /\ Forall (waiting_ok K n) to_run'
    /\ total_cost (waiting_cost env K) to_run' + List.length completed
       = total_cost (waiting_cost env K) to_run
         + total_cost (running_cost env K) completed.
Proof.
  induction completed as [|c rest IH]; intros to_run w Hc Hw;
    cbn [check_completed].
  - exists [], to_run. rewrite sched_with_events_nil.
    split; [reflexivity|]. split; [exact Hw|].
    unfold total_cost. cbn. lia.
  - inversion Hc as [|? ? Hcok Hrest]; subst.
    destruct Hcok as [[Hcw [pr [p0 [Hpo [Hs Hrc]]]]] [[pr' [Hpo' Hk]] Hout]].
    rewrite Hpo in Hpo'. injection Hpo' as <-. rewrite Hpo.
    destruct (attempt_outcome c Hcw) as [p1 [Hs1 Hcase]].
    rewrite Hs in Hs1. injection Hs1 as <-.
    rewrite total_cost_cons.
    destruct Hcase as [[Hlast Hzero]|[Hless [Hnz Hlim]]].
    + rewrite Hrc, Hzero. cbn [Z.eqb negb].
      rewrite (success_cost c pr Hpo Hk Hlast).
      rewrite bind_unfold. destruct out.
      * destruct (Hout eq_refl) as [b Hb].
        rewrite bind_unfold. unfold lift at 1.
        unfold get_std_out_from_tracker. rewrite Hb.
        rewrite sched_emit_spec.
        match goal with
        | |- context [check_completed env true R rest ?a ?b] =>
            destruct (IH a b Hrest Hw) as [evs [tr' [Heq [Hw2 Hcost]]]]
        end.
        eexists _, tr'. rewrite Heq, sched_with_events_app.
        split; [reflexivity|]. split; [exact Hw2|].
        cbn [List.length app]. lia.
      * unfold ret at 1.
        destruct (IH to_run w Hrest Hw) as [evs [tr' [Heq [Hw2 Hcost]]]].
        exists evs, tr'. split; [exact Heq|]. split; [exact Hw2|].
        cbn [List.length app]. lia.
    + rewrite Hrc.
      replace (negb (returncode p0 =? 0)%Z) with true
        by (symmetry; apply negb_true_iff, Z.eqb_neq; exact Hnz).
      replace (retries c =? R)%Z with false
        by (symmetry; apply Z.eqb_neq; exact Hlim).
      assert (Hw' : Forall (waiting_ok K n)
                      (to_run ++ [set_popen None
                                    (set_retries (retries c + 1) c)])).
      { apply Forall_app. split; [exact Hw|]. constructor; [|constructor].
        destruct Hcw as [Hid Hr]. split; [exact Hid|].
        cbn [set_popen set_retries retries ident]. lia. }
      destruct (IH _ w Hrest Hw') as [evs [tr' [Heq [Hw2 Hcost]]]].
      exists evs, tr'. split; [exact Heq|]. split; [exact Hw2|].
      rewrite total_cost_app, total_cost_one in Hcost.
      pose proof (requeue_cost c pr Hpo Hk) as Hq.
      destruct Hcw as [Hid Hr].
      specialize (Hq (conj (proj1 Hr) Hless)).
      cbn [List.length app]. lia.
Qed.

Lemma waiting_cost_positive (c : CMDTracker) :
  (1 <= waiting_cost env K c)%nat.
Proof. unfold waiting_cost. cbn [wait_cost]. lia. Qed.

Lemma running_cost_positive (c : CMDTracker) :
  running_ok env K n c -> (1 <= running_cost env K c)%nat.
Proof.
  intros [_ [pr [p0 [Hpo _]]]]. unfold running_cost. rewrite Hpo. lia.
Qed.

(** With every command succeeding within the budget, a bound on the
    turns of the loop that is at least the number of polls still to be
    made lets the loop finish. *)
Lemma main_loop_ok (fuel : nat) :
  forall (to_run running : list CMDTracker) (w : world),
  Forall (waiting_ok K n) to_run ->
  Forall (running_ok env K n) running ->
  (total_cost (waiting_cost env K) to_run
   + total_cost (running_cost env K) running <= fuel)%nat ->
  exists evs,
    main_loop fuel env p sh out R to_run running w
    = (sched_with_events w evs, inr Finished).
Proof.
  induction fuel as [|fuel IH]; intros to_run running w Hw Hr Hcost;
    cbn [main_loop];
    destruct ((0 <? List.length to_run)%nat
              || (0 <? List.length running)%nat) eqn:Hcond;
    try (exists []; rewrite sched_with_events_nil; reflexivity).
  - exfalso. destruct to_run as [|c to_run].
    + destruct running as [|c running]; [discriminate|].
      inversion Hr as [|? ? Hc _]; subst.
      pose proof (running_cost_positive c Hc).
      rewrite total_cost_cons in Hcost. lia.
    + pose proof (waiting_cost_positive c).
      rewrite total_cost_cons in Hcost. lia.
  - destruct (start_processes_ok (List.length to_run) to_run running w Hw Hr)
      as [e1 [to_run1 [running1 [H1 [Hw1 [Hr1 [Hc1 Hne]]]]]]].
    assert (Hnonempty : running1 <> []).
    { apply Hne; [lia|]. destruct to_run; [right|left; discriminate].
      destruct running; discriminate. }
    rewrite bind_unfold, H1. cbn [fst snd].
    destruct (poll_ok running1 [] [] (sched_with_events w e1) Hr1)
      as [e2 [s_new [c_new [H2 [Hs2 [Hc2 [Hcost2 Hlen2]]]]]]].
    rewrite bind_unfold, H2. cbn [fst snd app].
    destruct (check_completed_ok c_new to_run1
                (sched_with_events (sched_with_events w e1) e2) Hc2 Hw1)
      as [e3 [to_run2 [H3 [Hw3 Hcost3]]]].
    rewrite bind_unfold, H3.
    assert (Hlen1 : (1 <= List.length running1)%nat).
    { destruct running1; [contradiction | cbn; lia]. }
    destruct (IH to_run2 s_new
                (sched_with_events
                   (sched_with_events (sched_with_events w e1) e2) e3)
                Hw3 Hs2) as [e4 H4]; [lia|].
    rewrite H4, !sched_with_events_app. eexists. reflexivity.
Qed.

(** *** Counting the launches *)

Lemma spawn_count_app (i : nat) (a b : list event) :
  spawn_count i (a ++ b) = spawn_count i a + spawn_count i b.
Proof. unfold spawn_count. now rewrite filter_app, length_app. Qed.

Lemma start_processes_count (i n0 : nat) :
  forall (to_run running : list CMDTracker) (w w' : world)
         (to_run' running' : list CMDTracker),
  start_processes n0 env p sh out to_run running w
  = (w', inr (to_run', running')) ->
  spawn_count i (events w')
  + total_cost (launches_waiting K i) to_run'
  + total_cost (launches_running K i) running'
  = spawn_count i (events w)
    + total_cost (launches_waiting K i) to_run
    + total_cost (launches_running K i) running.
Proof.
  induction n0 as [|n0 IH]; intros to_run running w w' tr' rn' H;
    cbn [start_processes] in H.
  - injection H as <- <- <-. reflexivity.
  - destruct (Z.of_nat (List.length running) <? p)%Z;
      [destruct (pop to_run) as [[to_run1 c]|] eqn:Hpop|];
      try (injection H as <- <- <-; reflexivity).
    apply pop_Some in Hpop. subst to_run.
    rewrite bind_unfold, sched_emit_spec, bind_unfold in H.
    unfold lift at 1 in H.
    destruct (Popen_init env (ident c) (retries c)) as [e|p0];
      [discriminate|].
    apply IH in H. rewrite H. cbn [sched_with_events events].
    rewrite spawn_count_app, !total_cost_app, !total_cost_one.
    unfold launches_waiting, launches_running, spawn_count.
    cbn [filter set_popen ident retries].
    destruct (ident c =? i)%nat; cbn [List.length]; lia.
Qed.

Lemma poll_count (i : nat) (running : list CMDTracker) :
  forall (still completed : list CMDTracker) (w w' : world)
         (still' completed' : list CMDTracker),
  poll out running still completed w = (w', inr (still', completed')) ->
  spawn_count i (events w') = spawn_count i (events w)
  /\ total_cost (launches_running K i) still'
     + total_cost (launches_running K i) completed'
     = total_cost (launches_running K i) still
       + total_cost (launches_running K i) completed
       + total_cost (launches_running K i) running.
Proof.
  induction running as [|c rest IH]; intros still completed w w' s' c' H;
    cbn [poll] in H.
  - injection H as <- <- <-. split; [reflexivity|].
    unfold total_cost at 5. cbn. lia.
  - destruct (popen c) as [pr|]; [|discriminate].
    rewrite bind_unfold, sched_emit_spec in H.
    destruct (polls_left pr) as [|k]; apply IH in H; destruct H as [Hev Hc];
      rewrite Hev, Hc; cbn [sched_with_events events];
      rewrite spawn_count_app, !total_cost_app, !total_cost_one,
        total_cost_cons;
      (split; [unfold spawn_count; cbn; lia|]);
      unfold launches_running;
      cbn [set_popen set_stdout_bytes ident retries]; lia.
Qed.

Lemma check_completed_count (i : nat) (completed : list CMDTracker) :
  forall (to_run : list CMDTracker) (w w' : world)
         (to_run' : list CMDTracker),
  Forall (completed_ok env K n out) completed ->
  check_completed env out R completed to_run w = (w', inr to_run') ->
  spawn_count i (events w') = spawn_count i (events w)
  /\ total_cost (launches_waiting K i) to_run'
     = total_cost (launches_waiting K i) to_run
       + total_cost (launches_running K i) completed.
Proof.
  induction completed as [|c rest IH]; intros to_run w w' tr' Hc H;
    cbn [check_completed] in H.
  - injection H as <- <-. split; [reflexivity|].
    unfold total_cost at 3. cbn. lia.
  - inversion Hc as [|? ? Hcok Hrest]; subst.
    destruct Hcok as [[Hcw [pr [p0 [Hpo [Hs Hrc]]]]] _].
    rewrite Hpo in H.
    destruct (attempt_outcome c Hcw) as [p1 [Hs1 Hcase]].
    rewrite Hs in Hs1. injection Hs1 as <-.
    rewrite total_cost_cons. destruct Hcw as [Hid Hr].
    destruct Hcase as [[Hlast Hzero]|[Hless [Hnz Hlim]]].
    + rewrite Hrc, Hzero in H. cbn [Z.eqb negb] in H.
      rewrite bind_unfold in H.
      assert (Hl : launches_running K i c = 0%nat).
      { unfold launches_running. destruct (ident c =? i)%nat eqn:E;
          [|reflexivity].
        apply Nat.eqb_eq in E. subst i. lia. }
      rewrite Hl. destruct out.
      * rewrite bind_unfold in H. unfold lift at 1 in H.
        destruct (get_std_out_from_tracker env c); [discriminate|].
        rewrite sched_emit_spec in H. apply (IH _ _ _ _ Hrest) in H.
        destruct H as [Hev Hcost]. rewrite Hev, Hcost.
        cbn [sched_with_events events]. rewrite spawn_count_app.
        split; [unfold spawn_count; cbn; lia | lia].
      * unfold ret at 1 in H. apply (IH _ _ _ _ Hrest) in H.
        destruct H as [Hev Hcost]. rewrite Hev, Hcost. split; lia.
    + rewrite Hrc in H.
      replace (negb (returncode p0 =? 0)%Z) with true in H
        by (symmetry; apply negb_true_iff, Z.eqb_neq; exact Hnz).
      replace (retries c =? R)%Z with false in H
        by (symmetry; apply Z.eqb_neq; exact Hlim).
      apply (IH _ _ _ _ Hrest) in H. destruct H as [Hev Hcost].
      rewrite Hev, Hcost, total_cost_app, total_cost_one.
      split; [reflexivity|].
      unfold launches_waiting, launches_running.
      cbn [set_popen set_retries ident retries].
      destruct (ident c =? i)%nat eqn:E; [|lia].
      apply Nat.eqb_eq in E. subst i. lia.
Qed.

(** A loop that finishes has launched each command as often as its
    trackers still had to be. *)
Lemma main_loop_count (i fuel : nat) :
  forall (to_run running : list CMDTracker) (w w' : world),
  Forall (waiting_ok K n) to_run ->
  Forall (running_ok env K n) running ->
  main_loop fuel env p sh out R to_run running w = (w', inr Finished) ->
  spawn_count i (events w')
  = spawn_count i (events w)
    + total_cost (launches_waiting K i) to_run
    + total_cost (launches_running K i) running.
Proof.
  induction fuel as [|fuel IH]; intros to_run running w w' Hw Hr H;
    cbn [main_loop] in H;
    destruct ((0 <? List.length to_run)%nat
              || (0 <? List.length running)%nat) eqn:Hcond;
    try discriminate;
    try (injection H as <-;
         destruct to_run; [|discriminate];
         destruct running; [|discriminate];
         unfold total_cost; cbn; lia).
  destruct (start_processes_ok (List.length to_run) to_run running w Hw Hr)
    as [e1 [to_run1 [running1 [H1 [Hw1 [Hr1 _]]]]]].
  pose proof (start_processes_count i _ _ _ _ _ _ _ H1) as C1.
  rewrite bind_unfold, H1 in H. cbn [fst snd] in H.
  destruct (poll_ok running1 [] [] (sched_with_events w e1) Hr1)
    as [e2 [s_new [c_new [H2 [Hs2 [Hc2 _]]]]]].
  pose proof (poll_count i _ _ _ _ _ _ _ H2) as [C2 C2'].
  rewrite bind_unfold, H2 in H. cbn [fst snd app] in H, C2'.
  destruct (check_completed_ok c_new to_run1
              (sched_with_events (sched_with_events w e1) e2) Hc2 Hw1)
    as [e3 [to_run2 [H3 [Hw3 _]]]].
  pose proof (check_completed_count i _ _ _ _ _ Hc2 H3) as [C3 C3'].
  rewrite bind_unfold, H3 in H.
  apply (IH _ _ _ _ Hw3 Hs2) in H.
  change (total_cost (launches_running K i) []) with 0%nat in C2'.
  lia.
Qed.

End SuccessWithinBudget.

Section RetryBudgetClaim.

Import SubprocessPool.

Lemma enumerate_bound {A : Type} (l : list A) (ic : nat * A) :
  In ic (enumerate l) -> (fst ic < List.length l)%nat.
Proof.
  destruct ic as [i c]. unfold enumerate. intro H.
  apply in_combine_l, in_seq in H. cbn [fst]. lia.
Qed.

Lemma new_trackers_wait (K : nat -> nat) (cmds : list (list string)) :
  Forall (waiting_ok K (List.length cmds))
    (map (fun ic => CMDTracker_init (fst ic) (snd ic)) (enumerate cmds)).
Proof.
  apply Forall_forall. intros c Hin. apply in_map_iff in Hin.
  destruct Hin as [ic [<- Hin]]. apply enumerate_bound in Hin.
  split; [exact Hin|]. cbn [CMDTracker_init retries ident]. lia.
Qed.

Lemma enumerated_trackers_launches (K : nat -> nat) (i : nat)
  (cmds : list (list string)) :
  forall s,
  total_cost (launches_waiting K i)
    (map (fun ic => CMDTracker_init (fst ic) (snd ic))
       (combine (seq s (List.length cmds)) cmds))
  = if ((s <=? i) && (i <? s + List.length cmds))%nat then S (K i) else 0%nat.
Proof.
  induction cmds as [|c cmds IH]; intro s.
  - cbn [List.length seq combine map]. unfold total_cost. cbn [map list_sum].
    destruct (Nat.leb_spec s i); destruct (Nat.ltb_spec i (s + 0));
      cbn [andb]; (reflexivity || lia).
  - cbn [List.length seq combine map fst snd].
    rewrite total_cost_cons, IH.
    unfold launches_waiting. cbn [CMDTracker_init ident retries].
    cbn [Z.to_nat]. rewrite Nat.sub_0_r.
    destruct (Nat.eqb_spec s i); destruct (Nat.leb_spec s i);
      destruct (Nat.leb_spec (S s) i);
      destruct (Nat.ltb_spec i (S s + List.length cmds));
      destruct (Nat.ltb_spec i (s + S (List.length cmds)));
      cbn [andb]; lia.
Qed.

Lemma new_trackers_launches (K : nat -> nat) (i : nat)
  (cmds : list (list string)) :
  total_cost (launches_waiting K i)
    (map (fun ic => CMDTracker_init (fst ic) (snd ic)) (enumerate cmds))
  = if (i <? List.length cmds)%nat then S (K i) else 0%nat.
Proof.
  unfold enumerate. rewrite enumerated_trackers_launches.
  cbn [Nat.leb andb Nat.add]. reflexivity.
Qed.

(** C4: the retry budget [R] permits exactly [R] relaunches.  Let every
    command of the batch fail on some number of first attempts that is
    at most [R] and exit with status zero on the attempt after them
    (so a command that fails [R] times and succeeds on attempt [R + 1]
    is included).  Then the run returns without raising, for every
    bound on the turns of the loop from some bound on, leaves the queue
    empty, and has launched each command once more than it failed: a
    command that fails [R] times is launched [R + 1] times.  A completed
    command with a non-zero exit status is
    put back to be relaunched, its counter increased by one, as long as
    its counter differs from [R], and it makes the run raise when its
    counter equals [R]. *)
Theorem retry_budget_permits_R_relaunches
  (env : Env) (K : nat -> nat) (p R : Z) (sh out : bool) (w : world) :
  (1 <= p <= 36)%Z -> (0 <= R <= 30)%Z ->
  (forall i, (i < List.length (cmd_list (self w)))%nat ->
             succeeds_at env R K i) ->
  (exists fuel0, forall fuel, (fuel0 <= fuel)%nat ->
     exists evs,
       run_processes fuel env (PyInt p) (PyBool sh) (PyBool out) (PyInt R) w
       = ({| self := init; events := events w ++ evs |}, inr Finished)
       /\ forall i, (i < List.length (cmd_list (self w)))%nat ->
                    spawn_count i evs = S (K i))
  /\ (forall (c : CMDTracker) (pr : Popen) (rest to_run : list CMDTracker)
             (w' : world),
         popen c = Some pr -> returncode pr <> 0%Z -> retries c <> R ->
         check_completed env out R (c :: rest) to_run w'
         = check_completed env out R rest
             (to_run ++ [set_popen None (set_retries (retries c + 1) c)])
             w')
  /\ (forall (c : CMDTracker) (pr : Popen) (rest to_run : list CMDTracker)
             (w' : world),
         popen c = Some pr -> returncode pr <> 0%Z -> retries c = R ->
         exists e,
           snd (check_completed env out R (c :: rest) to_run w') = inl e
           /\ is_scheduling_error e).
Proof.
  intros Hp HR Hsucc. split; [|split].
  - eexists. intros fuel Hfuel.
    rewrite run_processes_accepted_sched by assumption.
    destruct (main_loop_ok env R K (List.length (cmd_list (self w)))
                p sh out Hsucc (proj1 Hp) fuel
                (map (fun ic => CMDTracker_init (fst ic) (snd ic))
                   (enumerate (cmd_list (self w))))
                []
                {| self := {| cmd_list := [] |}; events := events w |}
                (new_trackers_wait K (cmd_list (self w)))
                (Forall_nil _))
      as [evs Hloop].
    + unfold total_cost at 2. cbn [map list_sum]. rewrite Nat.add_0_r.
      exact Hfuel.
    + exists evs. rewrite Hloop. split; [reflexivity|]. intros i Hi.
      pose proof (main_loop_count env R K (List.length (cmd_list (self w)))
                    p sh out Hsucc (proj1 Hp) i fuel _ _ _ _
                    (new_trackers_wait K (cmd_list (self w)))
                    (Forall_nil _) Hloop) as Hcount.
      cbn [sched_with_events events] in Hcount.
      rewrite spawn_count_app, new_trackers_launches in Hcount.
      change (total_cost (launches_running K i) []) with 0%nat in Hcount.
      apply Nat.ltb_lt in Hi. rewrite Hi in Hcount. lia.
  - intros c pr rest to_run w' Hpo Hrc Hlim. cbn [check_completed].
    rewrite Hpo.
    replace (negb (returncode pr =? 0)%Z) with true
      by (symmetry; apply negb_true_iff, Z.eqb_neq; exact Hrc).
    replace (retries c =? R)%Z with false
      by (symmetry; apply Z.eqb_neq; exact Hlim).
    reflexivity.
  - intros c pr rest to_run w' Hpo Hrc Hlim.
    destruct (check_completed_fatal env out R (c :: rest) to_run w' c pr
                (or_introl eq_refl) Hpo Hrc Hlim) as [e He].
    exists e. split; [exact He|].
    destruct (check_completed_sound env out R (c :: rest) to_run w')
      as [evs [_ [_ Herr]]].
    rewrite He in Herr. exact Herr.
Qed.

End RetryBudgetClaim.

(* ================================================================== *)
(** ** The theorems at concrete batches *)

Section SchedulerExamples.

Import SubprocessPool.

Lemma retry_budget_permits_R_relaunches_witness :
  exists fuel0, forall fuel, (fuel0 <= fuel)%nat ->
    exists evs,
      run_processes fuel flaky_env (PyInt 1) (PyBool false) (PyBool true)
        (PyInt 2) (fresh_scheduler [["job"]])
      = ({| self := init; events := [] ++ evs |}, inr Finished)
      /\ forall i, (i < 1)%nat -> spawn_count i evs = 3%nat.
Proof.
  destruct (retry_budget_permits_R_relaunches flaky_env (fun _ => 2%nat)
              1 2 false true (fresh_scheduler [["job"]])) as [H _].
  - lia.
  - lia.
  - intros i _. split; [cbn; lia|]. split.
    + eexists. split; reflexivity.
    + intros a Ha.
      destruct a as [|[|a]];
        [eexists; split; [reflexivity|discriminate]..|lia].
  - exact H.
Defined.

(** With a budget of two retries a command that fails twice and then
    succeeds is launched three times and the run returns; with a budget
    of one retry the same command is launched twice and the run
    raises. *)
Example flaky_command_within_and_beyond_budget :
  run_processes 5 flaky_env (PyInt 1) (PyBool false) (PyBool true) (PyInt 2)
    (fresh_scheduler [["job"]])
  = ({| self := init;
        events := [Spawn 0 (Argv ["job"]) true false; Communicate 0;
                   Spawn 0 (Argv ["job"]) true false; Communicate 0;
                   Spawn 0 (Argv ["job"]) true false; Communicate 0;
                   LogInfo (" - subprocess completed - " ++ nl)] |},
     inr Finished)
  /\ run_processes 5 flaky_env (PyInt 1) (PyBool false) (PyBool true)
       (PyInt 1) (fresh_scheduler [["job"]])
     = ({| self := init;
           events := [Spawn 0 (Argv ["job"]) true false; Communicate 0;
                      Spawn 0 (Argv ["job"]) true false; Communicate 0;
                      LogInfo (" - subprocess exited with errors - "
                                 ++ nl)] |},
        inl (RuntimeError
               "subprocess exited with a non-zero return code and retries limit reached, 1")).
Proof. split; vm_compute; reflexivity. Qed.

Lemma fatal_failure_raises_immediately_witness :
  exists e logs,
    main_loop 1 failing_env 1 false true 0
      [CMDTracker_init 0 ["a"]; CMDTracker_init 1 ["b"]] []
      (fresh_scheduler [])
    = (sched_with_events
         {| self := init;
            events := [Spawn 1 (Argv ["b"]) true false; Communicate 1] |}
         logs,
       inl e)
    /\ Forall is_log logs
    /\ is_scheduling_error e.
Proof.
  eapply (fatal_failure_raises_immediately 0 failing_env 1 false true 0
            [CMDTracker_init 0 ["a"]; CMDTracker_init 1 ["b"]] []
            (fresh_scheduler [])
            {| self := init; events := [Spawn 1 (Argv ["b"]) true false] |}
            {| self := init;
               events := [Spawn 1 (Argv ["b"]) true false; Communicate 1] |}
            ([CMDTracker_init 0 ["a"]],
             [set_popen (Some {| polls_left := 0; returncode := 1;
                                 output_bytes := [] |})
                (CMDTracker_init 1 ["b"])])
            ([],
             [set_stdout_bytes (Some [])
                (set_popen (Some {| polls_left := 0; returncode := 1;
                                    output_bytes := [] |})
                   (CMDTracker_init 1 ["b"]))])
            (set_stdout_bytes (Some [])
               (set_popen (Some {| polls_left := 0; returncode := 1;
                                   output_bytes := [] |})
                  (CMDTracker_init 1 ["b"])))
            {| polls_left := 0; returncode := 1; output_bytes := [] |}).
  - reflexivity.
  - reflexivity.
  - left. reflexivity.
  - reflexivity.
  - simpl. lia.
  - reflexivity.
Defined.

(** In that turn the command ["a"] still waits when the run raises: it
    is never launched, and with no output captured the error raised is
    the one of decoding a missing buffer. *)
Example fatal_failure_leaves_waiting_command :
  run_processes 9 failing_env (PyInt 1) (PyBool false) (PyBool true)
    (PyInt 0) (fresh_scheduler [["a"]; ["b"]])
  = ({| self := init;
        events := [Spawn 1 (Argv ["b"]) true false; Communicate 1;
                   LogInfo (" - subprocess exited with errors - " ++ nl)] |},
     inl (RuntimeError
            "subprocess exited with a non-zero return code and retries limit reached, 1"))
  /\ run_processes 9 failing_env (PyInt 1) (PyBool false) (PyBool false)
       (PyInt 0) (fresh_scheduler [["a"]; ["b"]])
     = ({| self := init;
           events := [Spawn 1 (Argv ["b"]) false false; Communicate 1] |},
        inl (AttributeError "'NoneType' object has no attribute 'decode'")).
Proof. split; vm_compute; reflexivity. Qed.

End SchedulerExamples.

(* ================================================================== *)
(** ** Further properties: submitting work *)

Section SubmissionExtras.

Lemma py_cmd_items (words : list string) :
  list_items (py_cmd words) = map PyStr words.
Proof. reflexivity. Qed.

Lemma py_cmd_words (words : list string) : cmd_words (py_cmd words) = words.
Proof.
  unfold cmd_words. rewrite py_cmd_items, map_map. cbn [str_value].
  apply map_id.
Qed.

Lemma py_cmd_valid (words : list string) :
  valid_cmd (py_cmd words) = nonempty_words words.
Proof.
  unfold valid_cmd, nonempty_words. rewrite py_cmd_items, length_map.
  assert (H : forallb (fun cs => isinstance cs TStr) (map PyStr words)
              = true).
  { apply forallb_forall. intros x Hx. apply in_map_iff in Hx.
    destruct Hx as [s [<- _]]. reflexivity. }
  rewrite H. reflexivity.
Qed.

(** X1: [add_command] accepts exactly the non-empty lists of [str].  An
    accepted command goes to the end of the queue, word for word, and
    the commands queued before stay in place; a refused value raises a
    validation error and leaves the queue as it was. *)
Theorem add_command_accepts_exactly_valid (cmd : pyval) (s : SubprocessPool.t) :
  (if valid_cmd cmd then
     SubprocessPool.add_command cmd s
     = ({| SubprocessPool.cmd_list :=
             SubprocessPool.cmd_list s ++ [cmd_words cmd] |}, inr tt)
   else
     exists e, SubprocessPool.add_command cmd s = (s, inl e)
               /\ is_validation_error e = true)
  /\ forall words : list string,
      valid_cmd (py_cmd words) = nonempty_words words
      /\ cmd_words (py_cmd words) = words.
Proof.
  split.
  - destruct (valid_cmd cmd) eqn:Hv.
    + apply add_command_valid. exact Hv.
    + apply add_command_invalid. exact Hv.
  - intro words. split; [apply py_cmd_valid | apply py_cmd_words].
Qed.

Lemma for_each_app {S A : Type} (a b : list A) (body : A -> M S unit) (s : S) :
  for_each (a ++ b) body s = (for_each a body ;;; for_each b body) s.
Proof.
  revert s. induction a as [|x a IH]; intro s; cbn [app for_each].
  - reflexivity.
  - rewrite !bind_unfold. destruct (body x s) as [s' [e|[]]].
    + reflexivity.
    + rewrite IH, bind_unfold. reflexivity.
Qed.

Lemma add_commands_all_valid (batch : list (list string))
  (s : SubprocessPool.t) :
  forallb nonempty_words batch = true ->
  for_each (map py_cmd batch) SubprocessPool.add_command s
  = ({| SubprocessPool.cmd_list := SubprocessPool.cmd_list s ++ batch |},
     inr tt).
Proof.
  revert s. induction batch as [|ws batch IH]; intros s H.
  - cbn [map for_each]. rewrite app_nil_r. destruct s. reflexivity.
  - cbn [forallb] in H. apply andb_true_iff in H. destruct H as [Hw Hb].
    cbn [map for_each]. unfold bind at 1.
    rewrite add_command_valid by (rewrite py_cmd_valid; exact Hw).
    rewrite IH by exact Hb. cbn [SubprocessPool.cmd_list].
    rewrite py_cmd_words, <- app_assoc. reflexivity.
Qed.

(** X2: [add_list_of_commands] queues a batch as it is given.  A list
    of non-empty lists of [str] is appended to the queue in order, with
    no command changed; and adding a list in two parts, one after the
    other, is the same as adding the whole list at once, also when an
    element is refused. *)
Theorem add_list_of_commands_appends_in_order
  (batch : list (list string)) (s : SubprocessPool.t) :
  forallb nonempty_words batch = true ->
  SubprocessPool.add_list_of_commands (PyList (map py_cmd batch)) s
  = ({| SubprocessPool.cmd_list := SubprocessPool.cmd_list s ++ batch |},
     inr tt)
  /\ forall (a b : list pyval) (s0 : SubprocessPool.t),
      SubprocessPool.add_list_of_commands (PyList (a ++ b)) s0
      = (SubprocessPool.add_list_of_commands (PyList a) ;;;
         SubprocessPool.add_list_of_commands (PyList b)) s0.
Proof.
  intro H. split.
  - unfold SubprocessPool.add_list_of_commands.
    cbn [check_types isinstance list_items].
    unfold bind at 1. unfold lift at 1.
    apply add_commands_all_valid. exact H.
  - intros a b s0. unfold SubprocessPool.add_list_of_commands.
    cbn [check_types isinstance list_items].
    unfold bind at 1. unfold lift at 1. rewrite for_each_app.
    unfold bind. unfold lift.
    destruct (for_each a SubprocessPool.add_command s0) as [s1 [e|[]]];
      reflexivity.
Qed.

Lemma add_list_of_commands_appends_in_order_witness :
  SubprocessPool.add_list_of_commands
    (PyList (map py_cmd [["ls"; "-l"]; ["pwd"]]))
    {| SubprocessPool.cmd_list := [["date"]] |}
  = ({| SubprocessPool.cmd_list := [["date"]] ++ [["ls"; "-l"]; ["pwd"]] |},
     inr tt).
Proof.
  apply (add_list_of_commands_appends_in_order [["ls"; "-l"]; ["pwd"]]
           {| SubprocessPool.cmd_list := [["date"]] |}).
  reflexivity.
Defined.

Lemma add_function_calls_spec
  (calls : list MultiprocessingPool.FunctionCall)
  (s : MultiprocessingPool.t) :
  for_each calls
    (fun fc => MultiprocessingPool.add_function_call
                 (MultiprocessingPool.Instance fc)) s
  = ({| MultiprocessingPool.function_call_list :=
          MultiprocessingPool.function_call_list s ++ calls |}, inr tt).
Proof.
  revert s. induction calls as [|fc calls IH]; intro s; cbn [for_each].
  - rewrite app_nil_r. destruct s. reflexivity.
  - unfold bind at 1. cbn [MultiprocessingPool.add_function_call].
    unfold modify at 1. rewrite IH.
    cbn [MultiprocessingPool.function_call_list].
    rewrite <- app_assoc. reflexivity.
Qed.

(** X3: submitting calls.  The constructor of a call descriptor
    succeeds exactly for a callable with a tuple of arguments and then
    keeps both as given.  [add_function_call] puts descriptors at the
    end of the queue, so calls added one after the other are queued in
    that order behind the calls already there, and it refuses anything
    that is not a descriptor without touching the queue. *)
Theorem call_submission_keeps_order :
  (forall func arg_tuple : pyval,
      if callable func && isinstance arg_tuple TTuple then
        MultiprocessingPool.FunctionCall_init func arg_tuple
        = inr {| MultiprocessingPool.func := func;
                 MultiprocessingPool.arg_tuple := arg_tuple |}
      else
        exists msg,
          MultiprocessingPool.FunctionCall_init func arg_tuple
          = inl (AssertionError msg))
  /\ (forall (calls : list MultiprocessingPool.FunctionCall)
             (s : MultiprocessingPool.t),
         for_each calls
           (fun fc => MultiprocessingPool.add_function_call
                        (MultiprocessingPool.Instance fc)) s
         = ({| MultiprocessingPool.function_call_list :=
                 MultiprocessingPool.function_call_list s ++ calls |},
            inr tt))
  /\ (forall (v : pyval) (s : MultiprocessingPool.t),
         MultiprocessingPool.add_function_call (MultiprocessingPool.Other v) s
         = (s, inl (AssertionError "call must be a MultiprocessPool.Call"))).
Proof.
  split; [|split].
  - intros func arg_tuple. unfold MultiprocessingPool.FunctionCall_init.
    destruct (callable func); destruct (isinstance arg_tuple TTuple);
      cbn [andb negb]; try reflexivity; eexists; reflexivity.
  - apply add_function_calls_spec.
  - reflexivity.
Qed.

End SubmissionExtras.

(* ================================================================== *)
(** ** Further properties: the call pool *)

Section CallPoolExtras.

Import MultiprocessingPool.

Lemma logged_lines_without_error (results : list (string * bool)) :
  any_error results = false ->
  logged_lines results
  = map completed_line (filter nonempty_text (map fst results)).
Proof.
  induction results as [|[log_str error_caught] rest IH]; intro H.
  - reflexivity.
  - unfold any_error in H. cbn [existsb snd] in H.
    apply orb_false_iff in H. destruct H as [-> Hrest].
    cbn [logged_lines map filter fst]. rewrite (IH Hrest).
    unfold nonempty_text at 2. destruct (negb (log_str =? "")); reflexivity.
Qed.

(** X5: a batch in which every result arrives and no call raises is
    reported in full.  With an accepted number of processes, when
    [result.get()] returns a pair with the flag unset for every queued
    call, the run creates the pool, dispatches every call and collects
    every result in the order of the queue, then logs one line for each
    result whose text is not empty, in that order and with the text in
    it, closes the pool and returns. *)
Theorem call_pool_success_reports_every_log
  (env : Env) (p : Z) (w : world) :
  (1 <= p <= 36)%Z ->
  (forall fc, In fc (function_call_list (self w)) ->
              exists text, result_of env fc = Arrives (text, false)) ->
  run_processes env (PyInt p) w
  = (call_with_events w
       (PoolCreate p
          :: map ApplyAsync (function_call_list (self w))
          ++ map ResultGet (seq 0 (List.length (function_call_list (self w))))
          ++ map completed_line
               (filter nonempty_text
                  (map (fun fc => fst (arrived (result_of env fc)))
                     (function_call_list (self w))))
          ++ [PoolClose]),
     inr Returned).
Proof.
  intros Hp Hok.
  rewrite (run_processes_accepted env (PyInt p) w eq_refl Hp).
  unfold results_of. rewrite collection_all.
  - assert (Hno : any_error
                    (map arrived
                       (map (result_of env) (function_call_list (self w))))
                  = false).
    { unfold any_error. rewrite map_map.
      induction (function_call_list (self w)) as [|fc calls IH];
        [reflexivity|].
      cbn [map existsb]. destruct (Hok fc (or_introl eq_refl)) as [text ->].
      cbn [arrived snd orb]. apply IH. intros fc' Hin. apply Hok.
      right. exact Hin. }
    rewrite Hno, (logged_lines_without_error _ Hno), !map_map. reflexivity.
  - intros a Ha. apply in_map_iff in Ha. destruct Ha as [fc [<- Hin]].
    destruct (Hok fc Hin) as [text ->]. eexists; reflexivity.
Qed.

Lemma call_pool_success_reports_every_log_witness :
  run_processes example_env (PyInt 2)
    (fresh_call_pool [quiet_success; quiet_success])
  = (call_with_events (fresh_call_pool [quiet_success; quiet_success])
       (PoolCreate 2
          :: map ApplyAsync [quiet_success; quiet_success]
          ++ map ResultGet (seq 0 2)
          ++ map completed_line
               ["second call was fine"; "second call was fine"]
          ++ [PoolClose]),
     inr Returned).
Proof.
  apply (call_pool_success_reports_every_log example_env 2
           (fresh_call_pool [quiet_success; quiet_success])).
  - lia.
  - intros fc [<-|[<-|[]]]; eexists; reflexivity.
Defined.

(** *** White space around a log *)

Lemma lstrip_chars_head (l : list ascii) :
  match lstrip_chars l with
  | [] => True
  | c :: _ => isspace c = false
  end.
Proof.
  induction l as [|c l IH]; cbn [lstrip_chars]; [exact I|].
  destruct (isspace c) eqn:E; [exact IH | exact E].
Qed.

Lemma lstrip_chars_suffix (l : list ascii) :
  exists pre, l = pre ++ lstrip_chars l.
Proof.
  induction l as [|c l [pre IH]]; cbn [lstrip_chars].
  - exists []. reflexivity.
  - destruct (isspace c).
    + exists (c :: pre). cbn [app]. rewrite <- IH. reflexivity.
    + exists []. reflexivity.
Qed.

Lemma lstrip_chars_all_space (l : list ascii) :
  forallb isspace l = true -> lstrip_chars l = [].
Proof.
  induction l as [|c l IH]; [reflexivity|]. cbn [forallb lstrip_chars].
  intro H. apply andb_true_iff in H. destruct H as [-> H]. apply IH, H.
Qed.

Lemma strip_all_space (s : string) : all_space s = true -> strip s = "".
Proof.
  unfold all_space, strip. intro H.
  rewrite (lstrip_chars_all_space _ H). reflexivity.
Qed.

Lemma strip_chars_ends (l : list ascii) :
  let r := rev (lstrip_chars (rev (lstrip_chars l))) in
  match r with [] => True | c :: _ => isspace c = false end
  /\ match rev r with [] => True | c :: _ => isspace c = false end.
Proof.
  intro r. subst r. split.
  - destruct (lstrip_chars_suffix (rev (lstrip_chars l))) as [pre Hpre].
    assert (HA : lstrip_chars l
                 = rev (lstrip_chars (rev (lstrip_chars l))) ++ rev pre).
    { rewrite <- (rev_involutive (lstrip_chars l)) at 1.
      rewrite Hpre at 1. rewrite rev_app_distr. reflexivity. }
    pose proof (lstrip_chars_head l) as Hhead.
    destruct (rev (lstrip_chars (rev (lstrip_chars l)))) as [|c rb];
      [exact I|].
    rewrite HA in Hhead. exact Hhead.
  - rewrite rev_involutive. apply lstrip_chars_head.
Qed.

(** X6: white space around a log is dropped, and a log of white space
    only is not reported.  The text of a pair that a worker returns
    neither begins nor ends with a white space character.  When the
    callable returns normally and has logged nothing but white space,
    the worker returns the empty text with the flag unset, and for such
    a result the coordinator logs nothing. *)
Theorem worker_text_is_stripped (env : Env) (function_call : FunctionCall) :
  (forall (text : string) (flag : bool),
      _call_func_and_return_log_and_error_caught env function_call
      = inr (text, flag) ->
      let chars := list_ascii_of_string text in
      match chars with [] => True | c :: _ => isspace c = false end
      /\ match rev chars with [] => True | c :: _ => isspace c = false end)
  /\ (raised (call env (func function_call) (arg_tuple function_call)) = None ->
      all_space
        (logged (call env (func function_call) (arg_tuple function_call)))
      = true ->
      _call_func_and_return_log_and_error_caught env function_call
      = inr ("", false))
  /\ forall w : world, log_and_check ("", false) w = (w, inr tt).
Proof.
  split; [|split].
  - intros text flag.
    unfold _call_func_and_return_log_and_error_caught.
    destruct (raised _) as [e|]; [destruct (is_Exception e)|];
      intro H; try discriminate; injection H as <- _; unfold strip;
      rewrite list_ascii_of_string_of_list_ascii; apply strip_chars_ends.
  - intros Hr Hs. unfold _call_func_and_return_log_and_error_caught.
    rewrite Hr, (strip_all_space _ Hs). reflexivity.
  - intro w. reflexivity.
Qed.

Lemma worker_text_is_stripped_witness :
  _call_func_and_return_log_and_error_caught blank_env quiet_success
  = inr ("", false)
  /\ _call_func_and_return_log_and_error_caught padded_env quiet_success
     = inr ("hello", false).
Proof.
  destruct (worker_text_is_stripped blank_env quiet_success) as [_ [H _]].
  split; [apply H; reflexivity | reflexivity].
Defined.

(** X4: an empty batch.  With accepted arguments, a run of the call
    pool on an empty queue creates the worker pool, closes it and
    returns; a run of the scheduler on an empty queue returns at once,
    without an event, whatever the bound on the turns of its loop. *)
Theorem empty_batch_runs_at_once (p r : Z) :
  (1 <= p <= 36)%Z -> (0 <= r <= 30)%Z ->
  (forall (env : Env) (evs : list event),
      run_processes env (PyInt p) {| self := init; events := evs |}
      = ({| self := init; events := evs ++ [PoolCreate p; PoolClose] |},
         inr Returned))
  /\ (forall (fuel : nat) (env : SubprocessPool.Env) (sh out : bool)
             (evs : list SubprocessPool.event),
         SubprocessPool.run_processes fuel env (PyInt p) (PyBool sh)
           (PyBool out) (PyInt r)
           {| SubprocessPool.self := SubprocessPool.init;
              SubprocessPool.events := evs |}
         = ({| SubprocessPool.self := SubprocessPool.init;
               SubprocessPool.events := evs |},
            inr SubprocessPool.Finished)).
Proof.
  intros Hp Hr. split.
  - intros env evs.
    rewrite (run_processes_accepted env (PyInt p) _ eq_refl Hp).
    reflexivity.
  - intros fuel env sh out evs.
    rewrite run_processes_accepted_sched by assumption.
    destruct fuel; reflexivity.
Qed.

Lemma empty_batch_runs_at_once_witness :
  run_processes example_env (PyInt 4) {| self := init; events := [] |}
  = ({| self := init; events := [] ++ [PoolCreate 4; PoolClose] |},
     inr Returned).
Proof.
  destruct (empty_batch_runs_at_once 4 0) as [H _]; [lia | lia |].
  apply H.
Defined.

End CallPoolExtras.

(* ================================================================== *)
(** ** Further properties: the launch step of the scheduler *)

Section LaunchStep.

Import SubprocessPool.

Variables (env : Env) (p : Z) (sh out : bool).

Ltac nothing_moved rest :=
  exists [], rest; cbn [rev map fst snd ret app];
  split; [now rewrite ?app_nil_r|];
  split; [now rewrite sched_with_events_nil|];
  split; [intro Hne; contradiction|];
  split; [reflexivity|];
  split; [now rewrite app_nil_r|];
  split; [constructor|].

(** What starting processes does, however it ends: it takes trackers
    from the end of the waiting list, last one first, and spawns each in
    turn. *)
Lemma start_processes_structure (n0 : nat) :
  forall (to_run running : list CMDTracker) (w : world),
  exists moved rest,
    to_run = rest ++ rev moved
    /\ fst (start_processes n0 env p sh out to_run running w)
       = sched_with_events w (map (spawn_event sh out) moved)
    /\ (moved <> [] ->
        (Z.of_nat (List.length running + List.length moved) <= p)%Z)
    /\ match snd (start_processes n0 env p sh out to_run running w) with
       | inl e => is_launch_exception e
       | inr (to_run', running') =>
           to_run' = rest
           /\ running' = running ++ map (launched_with env) moved
           /\ Forall (fun c => exists pr,
                          spawn env (ident c) (retries c) = inr pr) moved
           /\ ((List.length to_run <= n0)%nat ->
               to_run' = [] \/ (p <= Z.of_nat (List.length running'))%Z)
       end.
Proof.
  induction n0 as [|n0 IH]; intros to_run running w; cbn [start_processes].
  - nothing_moved to_run.
    intro Hlen. left. destruct to_run; [reflexivity | cbn in Hlen; lia].
  - destruct (Z.of_nat (List.length running) <? p)%Z eqn:Hfree.
    + destruct (pop to_run) as [[to_run1 c]|] eqn:Hpop.
      * apply pop_Some in Hpop. subst to_run.
        rewrite bind_unfold, sched_emit_spec. cbv beta iota.
        rewrite bind_unfold. unfold lift.
        change (Spawn (ident c)
                  (if sh then ShellLine (join " " (cmd c)) else Argv (cmd c))
                  out sh) with (spawn_event sh out c).
        destruct (Popen_init env (ident c) (retries c)) as [e|pr] eqn:Hinit;
          cbv beta iota.
        -- exists [c], to_run1. cbn [rev app map fst snd List.length].
           split; [reflexivity|]. split; [reflexivity|]. split.
           ++ intros _. apply Z.ltb_lt in Hfree. lia.
           ++ unfold Popen_init in Hinit.
              destruct (spawn env (ident c) (retries c)) as [f|];
                [|discriminate].
              injection Hinit as <-. exists f. reflexivity.
        -- destruct (IH to_run1 (running ++ [set_popen (Some pr) c])
                       (sched_with_events w [spawn_event sh out c]))
             as [moved [rest [Hsplit [Hw [Hcap Hres]]]]].
           exists (c :: moved), rest. cbn [rev map List.length].
           split; [rewrite Hsplit, <- app_assoc; reflexivity|].
           split; [rewrite Hw, sched_with_events_app; reflexivity|].
           split.
           ++ intros _. destruct moved as [|m moved].
              ** apply Z.ltb_lt in Hfree. cbn [List.length]. lia.
              ** assert (Hm : m :: moved <> []) by discriminate.
                 specialize (Hcap Hm). rewrite length_app in Hcap.
                 cbn [List.length] in *. lia.
           ++ destruct (snd (start_processes n0 env p sh out to_run1
                               (running ++ [set_popen (Some pr) c])
                               (sched_with_events w [spawn_event sh out c])))
                as [e|[tr' rn']]; [exact Hres|].
              destruct Hres as [Htr [Hrn [Hok Hgreedy]]].
              split; [exact Htr|]. split.
              ** rewrite Hrn, <- app_assoc. cbn [app].
                 unfold launched_with at 2. rewrite Hinit. reflexivity.
              ** split.
                 --- constructor; [|exact Hok]. unfold Popen_init in Hinit.
                     destruct (spawn env (ident c) (retries c));
                       [discriminate|]. eexists. reflexivity.
                 --- intro Hlen. apply Hgreedy. rewrite length_app in Hlen.
                     cbn [List.length] in Hlen. lia.
      * apply pop_None in Hpop. subst to_run.
        nothing_moved (@nil CMDTracker). intros _. left. reflexivity.
    + nothing_moved to_run.
      intros _. right. apply Z.ltb_ge in Hfree. exact Hfree.
Qed.

(** With a free slot or a running process at hand, the launch step
    leaves something running. *)
Lemma start_progress (to_run running : list CMDTracker) (w w' : world)
  (to_run' running' : list CMDTracker) :
  start_processes (List.length to_run) env p sh out to_run running w
  = (w', inr (to_run', running')) ->
  (1 <= p)%Z ->
  (0 <? List.length to_run)%nat || (0 <? List.length running)%nat = true ->
  running' <> [].
Proof.
  intros H Hp Hcond.
  destruct (start_processes_structure (List.length to_run) to_run running w)
    as [moved [rest [Hsplit [_ [_ Hsnd]]]]].
  rewrite H in Hsnd. cbn [snd] in Hsnd.
  destruct Hsnd as [-> [-> [_ Hgreedy]]].
  destruct (Hgreedy (le_n _)) as [->|Hfull].
  - intro Hnil. apply app_eq_nil in Hnil. destruct Hnil as [-> Hm].
    apply map_eq_nil in Hm. subst moved. subst to_run. discriminate.
  - intro Hnil. rewrite Hnil in Hfull. cbn in Hfull. lia.
Qed.

End LaunchStep.

(* ================================================================== *)
(** ** Further properties: quantities that the scheduling loop keeps
    bounded

    A weight [fw] on waiting trackers, a weight [fr] on running ones and
    a measure [G] of traces, with a decrement [delta] per poll, such
    that no step on a tracker increases the total.  The retry budget,
    the number of launches and the fidelity of the launches are
    instances. *)

Section LoopPotential.

Import SubprocessPool.

Variables (env : Env) (p : Z) (sh out : bool) (R : Z).
Variables (Qw Qr : CMDTracker -> Prop).
Variables (fw fr : CMDTracker -> nat).
Variable G : list event -> nat.
Variable delta : nat.

Hypothesis G_app : forall a b, G (a ++ b) = G a + G b.
Hypothesis G_communicate : forall i, G [Communicate i] = 0%nat.
Hypothesis G_log : forall m, G [LogInfo m] = 0%nat.
Hypothesis Qr_handle : forall c, Qr c -> has_handle c.
Hypothesis launch_rule :
  forall c, Qw c ->
    (G [spawn_event sh out c] <= fw c)%nat
    /\ forall pr, spawn env (ident c) (retries c) = inr pr ->
         Qr (set_popen (Some pr) c)
         /\ (G [spawn_event sh out c] + fr (set_popen (Some pr) c)
             <= fw c)%nat.
Hypothesis tick_rule :
  forall c pr k, Qr c -> popen c = Some pr -> polls_left pr = S k ->
    Qr (set_popen (Some {| polls_left := k; returncode := returncode pr;
                           output_bytes := output_bytes pr |}) c)
    /\ (fr (set_popen (Some {| polls_left := k;
                               returncode := returncode pr;
                               output_bytes := output_bytes pr |}) c)
        + delta <= fr c)%nat.
Hypothesis finish_rule :
  forall c b, Qr c ->
    Qr (set_stdout_bytes b c) /\ (fr (set_stdout_bytes b c) <= fr c)%nat.
Hypothesis success_rule : forall c, Qr c -> (delta <= fr c)%nat.
Hypothesis requeue_rule :
  forall c, Qr c -> retries c <> R ->
    Qw (requeued c) /\ (fw (requeued c) + delta <= fr c)%nat.

Lemma G_nil : G [] = 0%nat.
Proof. pose proof (G_app [] []) as H. cbn [app] in H. lia. Qed.

Lemma G_cons (ev : event) (evs : list event) : G (ev :: evs) = G [ev] + G evs.
Proof. change (ev :: evs) with ([ev] ++ evs). apply G_app. Qed.

Lemma G_logs (evs : list event) : Forall is_log evs -> G evs = 0%nat.
Proof.
  induction 1 as [|ev evs Hev _ IH]; [apply G_nil|].
  rewrite G_cons, IH. destruct ev; try contradiction. rewrite G_log. lia.
Qed.

Lemma G_communicates (evs : list event) :
  Forall is_communicate evs -> G evs = 0%nat.
Proof.
  induction 1 as [|ev evs Hev _ IH]; [apply G_nil|].
  rewrite G_cons, IH. destruct ev; try contradiction.
  rewrite G_communicate. lia.
Qed.

Lemma G_world (w : world) (evs : list event) :
  G (events (sched_with_events w evs)) = G (events w) + G evs.
Proof. cbn [sched_with_events events]. apply G_app. Qed.

Lemma total_cost_rev (f : CMDTracker -> nat) (l : list CMDTracker) :
  total_cost f (rev l) = total_cost f l.
Proof.
  induction l as [|c l IH]; [reflexivity|].
  cbn [rev]. rewrite total_cost_app, total_cost_one, total_cost_cons, IH. lia.
Qed.

Lemma launched_with_ok (c : CMDTracker) (pr : Popen) :
  spawn env (ident c) (retries c) = inr pr ->
  launched_with env c = set_popen (Some pr) c.
Proof. intro H. unfold launched_with, Popen_init. rewrite H. reflexivity. Qed.

Lemma moved_attempted (moved : list CMDTracker) :
  Forall Qw moved ->
  (G (map (spawn_event sh out) moved) <= total_cost fw moved)%nat.
Proof.
  induction 1 as [|c moved Hc _ IH]; cbn [map].
  - rewrite G_nil. unfold total_cost. cbn. lia.
  - rewrite G_cons, total_cost_cons.
    destruct (launch_rule c Hc) as [Hle _]. lia.
Qed.

Lemma moved_launched (moved : list CMDTracker) :
  Forall Qw moved ->
  Forall (fun c => exists pr, spawn env (ident c) (retries c) = inr pr)
    moved ->
  Forall Qr (map (launched_with env) moved)
  /\ (G (map (spawn_event sh out) moved)
      + total_cost fr (map (launched_with env) moved)
      <= total_cost fw moved)%nat.
Proof.
  induction 1 as [|c moved Hc _ IH]; intro Hok; cbn [map].
  - split; [constructor|]. rewrite G_nil. unfold total_cost. cbn. lia.
  - inversion Hok as [|? ? [pr Hpr] Hok']; subst.
    destruct (IH Hok') as [HQ Hle].
    destruct (launch_rule c Hc) as [_ Hl].
    destruct (Hl pr Hpr) as [HQr Hcost].
    rewrite (launched_with_ok c pr Hpr). split; [constructor; assumption|].
    rewrite G_cons, !total_cost_cons. lia.
Qed.

Lemma potential_start (n0 : nat) (to_run running : list CMDTracker)
  (w : world) :
  Forall Qw to_run -> Forall Qr running ->
  (G (events (fst (start_processes n0 env p sh out to_run running w)))
   + match snd (start_processes n0 env p sh out to_run running w) with
     | inr (to_run', running') =>
         total_cost fw to_run' + total_cost fr running'
     | inl _ => 0
     end
   <= G (events w) + total_cost fw to_run + total_cost fr running)%nat
  /\ match snd (start_processes n0 env p sh out to_run running w) with
     | inr (to_run', running') => Forall Qw to_run' /\ Forall Qr running'
     | inl _ => True
     end.
Proof.
  intros Hw Hr.
  destruct (start_processes_structure env p sh out n0 to_run running w)
    as [moved [rest [Hsplit [Hfst [_ Hsnd]]]]].
  rewrite Hfst, G_world. subst to_run.
  apply Forall_app in Hw. destruct Hw as [Hrest Hmoved].
  apply Forall_rev in Hmoved. rewrite rev_involutive in Hmoved.
  rewrite total_cost_app, total_cost_rev.
  destruct (snd (start_processes n0 env p sh out (rest ++ rev moved)
                   running w)) as [e|[tr' rn']].
  - split; [|exact I]. pose proof (moved_attempted moved Hmoved). lia.
  - destruct Hsnd as [-> [-> [Hok _]]].
    destruct (moved_launched moved Hmoved Hok) as [HQ Hle].
    split.
    + rewrite total_cost_app. lia.
    + split; [exact Hrest|]. apply Forall_app. split; assumption.
Qed.

Lemma potential_poll (running : list CMDTracker) :
  forall (still completed : list CMDTracker) (w : world),
  Forall Qr running ->
  exists evs s_new c_new,
    poll out running still completed w
    = (sched_with_events w evs, inr (still ++ s_new, completed ++ c_new))
    /\ G evs = 0%nat
    /\ Forall Qr s_new /\ Forall Qr c_new
    /\ (total_cost fr s_new + total_cost (fun _ => delta) s_new
        + total_cost fr c_new <= total_cost fr running)%nat
    /\ (List.length s_new + List.length c_new = List.length running)%nat.
Proof.
  induction running as [|c rest IH]; intros still completed w Hr;
    cbn [poll].
  - exists [], [], []. rewrite sched_with_events_nil, !app_nil_r.
    split; [reflexivity|]. split; [apply G_nil|].
    repeat split; try constructor.
  - inversion Hr as [|? ? Hc Hrest]; subst.
    destruct (Qr_handle c Hc) as [pr Hpo]. rewrite Hpo.
    rewrite bind_unfold, sched_emit_spec.
    destruct (polls_left pr) as [|k] eqn:Hk.
    + match goal with
      | |- context [poll out rest ?a ?b ?c] =>
          destruct (IH a b c Hrest)
            as [evs [s_new [c_new [Heq [HG [Hs2 [Hc2 [Hcost Hlen]]]]]]]]
      end.
      destruct (finish_rule c (if out then Some (output_bytes pr) else None)
                  Hc) as [HQ Hle].
      eexists _, s_new, (_ :: c_new).
      rewrite Heq, sched_with_events_app, <- app_assoc.
      split; [reflexivity|]. split; [rewrite G_app, G_communicate, HG; lia|].
      split; [exact Hs2|]. split; [constructor; assumption|].
      rewrite !total_cost_cons. cbn [List.length]. lia.
    + match goal with
      | |- context [poll out rest ?a ?b ?c] =>
          destruct (IH a b c Hrest)
            as [evs [s_new [c_new [Heq [HG [Hs2 [Hc2 [Hcost Hlen]]]]]]]]
      end.
      destruct (tick_rule c pr k Hc Hpo Hk) as [HQ Hle].
      eexists _, (_ :: s_new), c_new.
      rewrite Heq, sched_with_events_app, <- app_assoc.
      split; [reflexivity|]. split; [rewrite G_app, G_communicate, HG; lia|].
      split; [constructor; assumption|]. split; [exact Hc2|].
      rewrite !total_cost_cons. cbn [List.length]. lia.
Qed.

Lemma potential_check (completed : list CMDTracker) :
  forall (to_run : list CMDTracker) (w w' : world)
         (to_run' : list CMDTracker),
  Forall Qr completed -> Forall Qw to_run ->
  check_completed env out R completed to_run w = (w', inr to_run') ->
  Forall Qw to_run'
  /\ (total_cost fw to_run' + total_cost (fun _ => delta) completed
      <= total_cost fw to_run + total_cost fr completed)%nat.
Proof.
  induction completed as [|c rest IH]; intros to_run w w' tr' Hc Hw H;
    cbn [check_completed] in H.
  - injection H as <- <-. split; [exact Hw|]. unfold total_cost. cbn. lia.
  - inversion Hc as [|? ? Hcok Hrest]; subst.
    destruct (Qr_handle c Hcok) as [pr Hpo]. rewrite Hpo in H.
    rewrite !total_cost_cons.
    destruct (negb (returncode pr =? 0)%Z);
      [destruct (retries c =? R)%Z eqn:Hlim|].
    + rewrite bind_unfold in H. unfold lift at 1 in H.
      destruct (get_std_out_from_tracker env c); [discriminate|].
      rewrite bind_unfold, sched_emit_spec in H. discriminate.
    + apply Z.eqb_neq in Hlim.
      destruct (requeue_rule c Hcok Hlim) as [HQ Hle].
      apply IH in H; [|exact Hrest|].
      * destruct H as [HQ' Hcost]. split; [exact HQ'|].
        rewrite total_cost_app, total_cost_one in Hcost.
        fold (requeued c) in Hcost. lia.
      * apply Forall_app. split; [exact Hw|]. constructor; [exact HQ|].
        constructor.
    + pose proof (success_rule c Hcok) as Hle.
      rewrite bind_unfold in H. destruct out.
      * rewrite bind_unfold in H. unfold lift at 1 in H.
        destruct (get_std_out_from_tracker env c); [discriminate|].
        rewrite sched_emit_spec in H.
        apply IH in H; [|exact Hrest|exact Hw].
        destruct H as [HQ' Hcost]. split; [exact HQ'|]. lia.
      * unfold ret at 1 in H. apply IH in H; [|exact Hrest|exact Hw].
        destruct H as [HQ' Hcost]. split; [exact HQ'|]. lia.
Qed.

Lemma potential_main (fuel : nat) :
  forall (to_run running : list CMDTracker) (w : world),
  Forall Qw to_run -> Forall Qr running ->
  (G (events (fst (main_loop fuel env p sh out R to_run running w)))
   <= G (events w) + total_cost fw to_run + total_cost fr running)%nat.
Proof.
  induction fuel as [|fuel IH]; intros to_run running w Hw Hr;
    cbn [main_loop];
    destruct ((0 <? List.length to_run)%nat
              || (0 <? List.length running)%nat);
    try (cbn [ret fst]; lia).
  rewrite bind_unfold.
  pose proof (potential_start (List.length to_run) to_run running w Hw Hr)
    as Hstart.
  destruct (start_processes (List.length to_run) env p sh out to_run
              running w) as [w1 [e|[tr1 rn1]]]; cbn [fst snd] in *.
  { lia. }
  destruct Hstart as [Hle1 [Hw1 Hr1]].
  destruct (potential_poll rn1 [] [] w1 Hr1)
    as [e2 [s_new [c_new [H2 [HG2 [Hs [Hc [Hcost Hlen]]]]]]]].
  rewrite bind_unfold, H2. cbn [fst snd app]. rewrite bind_unfold.
  destruct (check_completed_sound env out R c_new tr1
              (sched_with_events w1 e2)) as [e3 [H3 [Hlog _]]].
  destruct (check_completed env out R c_new tr1 (sched_with_events w1 e2))
    as [w3 [e|tr2]] eqn:Hcheck; cbn [fst] in H3; subst w3.
  - cbn [fst]. rewrite !G_world, (G_logs e3 Hlog). lia.
  - destruct (potential_check c_new tr1 _ _ tr2 Hc Hw1 Hcheck)
      as [Hw2 Hcost2].
    specialize (IH tr2 s_new
                  (sched_with_events (sched_with_events w1 e2) e3) Hw2 Hs).
    rewrite !G_world, (G_logs e3 Hlog) in IH. lia.
Qed.

Lemma total_delta (l : list CMDTracker) :
  (1 <= delta)%nat ->
  (List.length l <= total_cost (fun _ => delta) l)%nat.
Proof.
  intro Hd. induction l as [|c l IH]; [cbn; lia|].
  rewrite total_cost_cons. cbn [List.length]. lia.
Qed.

Lemma potential_terminates (fuel : nat) :
  (1 <= delta)%nat -> (1 <= p)%Z -> (forall c, Qw c -> (1 <= fw c)%nat) ->
  forall (to_run running : list CMDTracker) (w : world),
  Forall Qw to_run -> Forall Qr running ->
  (total_cost fw to_run + total_cost fr running <= fuel)%nat ->
  snd (main_loop fuel env p sh out R to_run running w) <> inr OutOfFuel.
Proof.
  intros Hd Hp Hpos.
  induction fuel as [|fuel IH]; intros to_run running w Hw Hr Hfuel;
    cbn [main_loop];
    destruct ((0 <? List.length to_run)%nat
              || (0 <? List.length running)%nat) eqn:Hcond;
    try (cbn [ret snd]; discriminate).
  - exfalso. destruct to_run as [|c to_run].
    + destruct running as [|c running]; [discriminate|].
      inversion Hr as [|? ? Hc _]; subst.
      pose proof (success_rule c Hc). rewrite total_cost_cons in Hfuel. lia.
    + inversion Hw as [|? ? Hc _]; subst.
      pose proof (Hpos c Hc). rewrite total_cost_cons in Hfuel. lia.
  - rewrite bind_unfold.
    pose proof (potential_start (List.length to_run) to_run running w Hw Hr)
      as Hstart.
    destruct (start_processes_sound env p sh out (List.length to_run)
                to_run running w) as [e1 [Hw1 _]].
    destruct (start_processes (List.length to_run) env p sh out to_run
                running w) as [w1 [e|[tr1 rn1]]] eqn:Hs1;
      cbn [fst snd] in *; [discriminate|].
    subst w1. rewrite G_world in Hstart.
    destruct Hstart as [Hle1 [HQw1 HQr1]].
    pose proof (start_progress env p sh out _ _ _ _ _ _ Hs1 Hp Hcond)
      as Hne.
    destruct (potential_poll rn1 [] [] (sched_with_events w e1) HQr1)
      as [e2 [s_new [c_new [H2 [HG2 [Hs [Hc [Hcost Hlen]]]]]]]].
    rewrite bind_unfold, H2. cbn [fst snd app]. rewrite bind_unfold.
    destruct (check_completed env out R c_new tr1
                (sched_with_events (sched_with_events w e1) e2))
      as [w3 [e|tr2]] eqn:Hcheck; [cbn [snd]; discriminate|].
    destruct (potential_check c_new tr1 _ _ tr2 Hc HQw1 Hcheck)
      as [Hw2 Hcost2].
    apply IH; [exact Hw2 | exact Hs |].
    pose proof (total_delta s_new Hd). pose proof (total_delta c_new Hd).
    assert (1 <= List.length rn1)%nat
      by (destruct rn1; [contradiction | cbn; lia]).
    lia.
Qed.

End LoopPotential.

(* ================================================================== *)
(** ** Further properties: termination and the bound on launches *)

Section BudgetBounds.

Import SubprocessPool.

Variables (env : Env) (R : Z).

Lemma budget_launch_rule (c : CMDTracker) :
  budget_ok R c ->
  (0 <= waiting_cost env (last_attempt R) c)%nat
  /\ forall pr, spawn env (ident c) (retries c) = inr pr ->
       (budget_running R) (set_popen (Some pr) c)
       /\ (0 + running_cost env (last_attempt R) (set_popen (Some pr) c)
           <= waiting_cost env (last_attempt R) c)%nat.
Proof.
  intro Hb. split; [lia|]. intros pr Hs. split.
  - split; [exact Hb | eexists; reflexivity].
  - rewrite (launch_cost env (last_attempt R) c pr (proj1 Hb) Hs). lia.
Qed.

Lemma budget_tick_rule (c : CMDTracker) (pr : Popen) (k : nat) :
  (budget_running R) c -> popen c = Some pr -> polls_left pr = S k ->
  budget_running R
    (set_popen (Some {| polls_left := k; returncode := returncode pr;
                         output_bytes := output_bytes pr |}) c)
  /\ (running_cost env (last_attempt R)
        (set_popen (Some {| polls_left := k; returncode := returncode pr;
                            output_bytes := output_bytes pr |}) c) + 1
      <= running_cost env (last_attempt R) c)%nat.
Proof.
  intros [Hb _] Hpo Hk. split.
  - split; [exact Hb | eexists; reflexivity].
  - pose proof (running_cost_timed_out env (last_attempt R) c pr k Hpo Hk). lia.
Qed.

Lemma budget_finish_rule (c : CMDTracker) (b : option (list Byte.byte)) :
  (budget_running R) c ->
  (budget_running R) (set_stdout_bytes b c)
  /\ (running_cost env (last_attempt R) (set_stdout_bytes b c)
      <= running_cost env (last_attempt R) c)%nat.
Proof.
  intros [Hb [pr Hpo]]. split.
  - split; [exact Hb | exists pr; exact Hpo].
  - rewrite running_cost_completed. lia.
Qed.

Lemma budget_success_rule (c : CMDTracker) :
  (budget_running R) c -> (1 <= running_cost env (last_attempt R) c)%nat.
Proof. intros [_ [pr Hpo]]. unfold running_cost. rewrite Hpo. lia. Qed.

Lemma budget_requeue_rule (c : CMDTracker) :
  (budget_running R) c -> retries c <> R ->
  budget_ok R (requeued c)
  /\ (waiting_cost env (last_attempt R) (requeued c) + 1
      <= running_cost env (last_attempt R) c)%nat.
Proof.
  intros [[Hlo Hhi] [pr Hpo]] Hne. split.
  - unfold budget_ok, requeued. cbn [set_popen set_retries retries]. lia.
  - unfold waiting_cost, running_cost, requeued, last_attempt.
    cbn [set_popen set_retries retries ident popen]. rewrite Hpo.
    replace (Z.to_nat (retries c + 1)) with (S (Z.to_nat (retries c)))
      by lia.
    replace (Z.to_nat R - Z.to_nat (retries c))%nat
      with (S (Z.to_nat R - S (Z.to_nat (retries c)))) by lia.
    lia.
Qed.

Lemma new_trackers_budget (cmds : list (list string)) :
  (0 <= R)%Z -> Forall (budget_ok R) (new_trackers cmds).
Proof.
  intro HR. apply Forall_forall. intros c Hin. apply in_map_iff in Hin.
  destruct Hin as [ic [<- _]]. unfold budget_ok.
  cbn [CMDTracker_init retries]. lia.
Qed.

(** X7: a run of the scheduler ends.  Every child being one that exits
    after finitely many polls, a run with accepted arguments returns or
    raises once the bound on the turns of the loop is large enough: the
    loop never goes on for ever, because a command is put back to wait
    at most [retries] times. *)
Theorem scheduler_run_terminates
  (p : Z) (sh out : bool) (w : world) :
  (1 <= p <= 36)%Z -> (0 <= R <= 30)%Z ->
  exists fuel0, forall fuel, (fuel0 <= fuel)%nat ->
    snd (run_processes fuel env (PyInt p) (PyBool sh) (PyBool out)
           (PyInt R) w)
    <> inr OutOfFuel.
Proof.
  intros Hp HR.
  exists (total_cost (waiting_cost env (last_attempt R))
            (new_trackers (cmd_list (self w)))).
  intros fuel Hfuel. rewrite run_processes_accepted_sched by assumption.
  apply (potential_terminates env p sh out R (budget_ok R) (budget_running R)
           (waiting_cost env (last_attempt R))
           (running_cost env (last_attempt R)) (fun _ => 0%nat) 1%nat);
    try reflexivity.
  - intros c [_ Hh]. exact Hh.
  - apply budget_launch_rule.
  - apply budget_tick_rule.
  - apply budget_finish_rule.
  - apply budget_success_rule.
  - apply budget_requeue_rule.
  - lia.
  - intros c _. apply waiting_cost_positive.
  - apply new_trackers_budget. lia.
  - constructor.
  - change (total_cost (running_cost env (last_attempt R)) []) with 0%nat.
    unfold new_trackers in Hfuel. lia.
Qed.

Lemma launches_launch_rule (sh out : bool) (i : nat) (c : CMDTracker) :
  budget_ok R c ->
  (spawn_count i [spawn_event sh out c]
   <= launches_waiting (last_attempt R) i c)%nat
  /\ forall pr, spawn env (ident c) (retries c) = inr pr ->
       (budget_running R) (set_popen (Some pr) c)
       /\ (spawn_count i [spawn_event sh out c]
           + launches_running (last_attempt R) i (set_popen (Some pr) c)
           <= launches_waiting (last_attempt R) i c)%nat.
Proof.
  intro Hb.
  assert (Hle : (spawn_count i [spawn_event sh out c]
                 + launches_running (last_attempt R) i c
                 <= launches_waiting (last_attempt R) i c)%nat).
  { unfold spawn_count, spawn_event, launches_running, launches_waiting.
    cbn [filter]. destruct (ident c =? i)%nat; cbn [List.length]; lia. }
  split; [lia|]. intros pr Hs. split.
  - split; [exact Hb | eexists; reflexivity].
  - exact Hle.
Qed.

Lemma launches_requeue_rule (i : nat) (c : CMDTracker) :
  (budget_running R) c -> retries c <> R ->
  budget_ok R (requeued c)
  /\ (launches_waiting (last_attempt R) i (requeued c) + 0
      <= launches_running (last_attempt R) i c)%nat.
Proof.
  intros [[Hlo Hhi] _] Hne. split.
  - unfold budget_ok, requeued. cbn [set_popen set_retries retries]. lia.
  - unfold launches_waiting, launches_running, requeued, last_attempt.
    cbn [set_popen set_retries retries ident].
    destruct (ident c =? i)%nat; lia.
Qed.

(** X8: the retry budget bounds the launches.  In every run with
    accepted arguments, however it ends and wherever it is cut off, the
    command at a position of the queue is launched at most
    [retries + 1] times, and nothing is launched for a position outside
    the queue. *)
Theorem no_command_launched_beyond_budget
  (fuel : nat) (p : Z) (sh out : bool) (w : world) (i : nat) :
  (1 <= p <= 36)%Z -> (0 <= R <= 30)%Z ->
  (spawn_count i
     (events (fst (run_processes fuel env (PyInt p) (PyBool sh) (PyBool out)
                     (PyInt R) w)))
   <= spawn_count i (events w)
      + (if (i <? List.length (cmd_list (self w)))%nat
         then S (Z.to_nat R) else 0))%nat.
Proof.
  intros Hp HR. rewrite run_processes_accepted_sched by assumption.
  pose proof (potential_main env p sh out R (budget_ok R) (budget_running R)
                (launches_waiting (last_attempt R) i)
                (launches_running (last_attempt R) i)
                (spawn_count i) 0%nat) as H.
  pose proof (new_trackers_launches (last_attempt R) i (cmd_list (self w)))
    as Hn.
  specialize (H (spawn_count_app i) (fun _ => eq_refl)
                (fun _ => eq_refl) (fun c Hc => proj2 Hc)
                (launches_launch_rule sh out i)).
  match type of H with
  | ?A -> _ => assert (Ht : A)
  end.
  { intros c pr k [Hb _] Hpo Hk. split.
    - split; [exact Hb | eexists; reflexivity].
    - unfold launches_running. cbn [set_popen retries ident]. lia. }
  specialize (H Ht). clear Ht.
  match type of H with
  | ?A -> _ => assert (Ht : A)
  end.
  { intros c b [Hb [pr Hpo]]. split.
    - split; [exact Hb | exists pr; exact Hpo].
    - unfold launches_running. cbn [set_stdout_bytes retries ident]. lia. }
  specialize (H Ht). clear Ht.
  specialize (H (fun c _ => Nat.le_0_l _) (launches_requeue_rule i) fuel
                (map (fun ic => CMDTracker_init (fst ic) (snd ic))
                   (enumerate (cmd_list (self w))))
                []
                {| self := {| cmd_list := [] |}; events := events w |}
                (new_trackers_budget (cmd_list (self w)) (proj1 HR))
                (Forall_nil _)).
  change (total_cost (launches_running (last_attempt R) i) []) with 0%nat in H.
  cbn [events] in H. unfold last_attempt in *.
  destruct (i <? List.length (cmd_list (self w)))%nat; lia.
Qed.

End BudgetBounds.

(* ================================================================== *)
(** ** Further properties: what is launched *)

Section LaunchFidelity.

Import SubprocessPool.

Variables (cmds : list (list string)) (sh out : bool).

Lemma popen_args_eqb_refl (a : popen_args) : popen_args_eqb a a = true.
Proof.
  destruct a as [x|x]; cbn [popen_args_eqb].
  - destruct (list_eq_dec string_dec x x); [reflexivity | contradiction].
  - apply String.eqb_refl.
Qed.

Lemma popen_args_eqb_eq (a b : popen_args) :
  popen_args_eqb a b = true -> a = b.
Proof.
  destruct a as [x|x]; destruct b as [y|y]; cbn [popen_args_eqb];
    try discriminate.
  - destruct (list_eq_dec string_dec x y); [congruence | discriminate].
  - intro H. apply String.eqb_eq in H. congruence.
Qed.

Lemma faithful_spec (ev : event) :
  faithful cmds sh out ev = true -> launches_as_queued cmds sh out ev.
Proof.
  destruct ev as [i args capture shell| |]; cbn [faithful launches_as_queued];
    auto.
  destruct (nth_error cmds i) as [words|]; [|discriminate].
  intro H. apply andb_true_iff in H. destruct H as [H Hs].
  apply andb_true_iff in H. destruct H as [Ha Hc].
  exists words. repeat split.
  - apply popen_args_eqb_eq. exact Ha.
  - apply Bool.eqb_prop. exact Hc.
  - apply Bool.eqb_prop. exact Hs.
Qed.

Lemma unfaithful_count_app (a b : list event) :
  unfaithful_count cmds sh out (a ++ b)
  = (unfaithful_count cmds sh out a + unfaithful_count cmds sh out b)%nat.
Proof. unfold unfaithful_count. now rewrite filter_app, length_app. Qed.

Lemma unfaithful_count_zero (evs : list event) :
  unfaithful_count cmds sh out evs = 0%nat ->
  Forall (launches_as_queued cmds sh out) evs.
Proof.
  induction evs as [|ev evs IH]; [constructor|].
  unfold unfaithful_count. cbn [filter].
  destruct (faithful cmds sh out ev) eqn:Hf; cbn [negb List.length].
  - intro H. constructor; [apply faithful_spec; exact Hf | apply IH; exact H].
  - discriminate.
Qed.

Lemma job_launch_faithful (c : CMDTracker) :
  job_ok cmds c -> unfaithful_count cmds sh out [spawn_event sh out c] = 0%nat.
Proof.
  unfold job_ok, unfaithful_count, spawn_event. intro H.
  cbn [filter faithful]. rewrite H.
  fold (popen_args_for sh (cmd c)).
  rewrite popen_args_eqb_refl, !Bool.eqb_reflx. reflexivity.
Qed.

Lemma enumerate_nth {A : Type} (l : list A) :
  forall (s i : nat) (x : A),
  In (i, x) (combine (seq s (List.length l)) l) ->
  nth_error l (i - s) = Some x /\ (s <= i)%nat.
Proof.
  induction l as [|a l IH]; intros s i x Hin; [contradiction|].
  cbn [List.length seq combine] in Hin. destruct Hin as [Heq|Hin].
  - injection Heq as <- <-. rewrite Nat.sub_diag. split; [reflexivity|lia].
  - apply IH in Hin. destruct Hin as [Hn Hle].
    replace (i - s)%nat with (S (i - S s)) by lia. split; [exact Hn|lia].
Qed.

Lemma new_trackers_job : Forall (job_ok cmds) (new_trackers cmds).
Proof.
  apply Forall_forall. intros c Hin. apply in_map_iff in Hin.
  destruct Hin as [[i x] [<- Hin]]. apply enumerate_nth in Hin.
  destruct Hin as [Hn _]. rewrite Nat.sub_0_r in Hn.
  unfold job_ok. cbn [CMDTracker_init ident cmd fst snd]. exact Hn.
Qed.

Lemma total_cost_zero (l : list CMDTracker) :
  total_cost (fun _ => 0%nat) l = 0%nat.
Proof.
  induction l as [|c l IH]; [reflexivity|]. rewrite total_cost_cons, IH.
  reflexivity.
Qed.

Lemma loop_launches_as_queued (env : Env) (p R : Z) (fuel : nat)
  (to_run running : list CMDTracker) (w : world) :
  Forall (job_ok cmds) to_run ->
  Forall (fun c => job_ok cmds c /\ has_handle c) running ->
  exists evs,
    fst (main_loop fuel env p sh out R to_run running w)
    = sched_with_events w evs
    /\ Forall (launches_as_queued cmds sh out) evs.
Proof.
  intros Hw Hr.
  destruct (main_loop_sound env p sh out R fuel to_run running w)
    as [evs [Hfst _]].
  exists evs. split; [exact Hfst|].
  apply unfaithful_count_zero.
  pose proof (potential_main env p sh out R (job_ok cmds)
                (fun c => job_ok cmds c /\ has_handle c)
                (fun _ => 0%nat) (fun _ => 0%nat)
                (unfaithful_count cmds sh out) 0%nat
                unfaithful_count_app (fun _ => eq_refl) (fun _ => eq_refl)
                (fun c Hc => proj2 Hc)) as H.
  match type of H with ?A -> _ => assert (Ht : A) end.
  { intros c Hc. rewrite (job_launch_faithful c Hc). split; [lia|].
    intros pr _. split; [|lia]. split; [exact Hc | eexists; reflexivity]. }
  specialize (H Ht). clear Ht.
  match type of H with ?A -> _ => assert (Ht : A) end.
  { intros c pr k [Hc _] _ _. split; [|lia].
    split; [exact Hc | eexists; reflexivity]. }
  specialize (H Ht). clear Ht.
  match type of H with ?A -> _ => assert (Ht : A) end.
  { intros c b [Hc [pr Hpo]]. split; [|lia].
    split; [exact Hc | exists pr; exact Hpo]. }
  specialize (H Ht). clear Ht.
  specialize (H (fun c _ => Nat.le_0_l _)).
  match type of H with ?A -> _ => assert (Ht : A) end.
  { intros c [Hc _] _. split; [exact Hc | lia]. }
  specialize (H Ht fuel to_run running w Hw Hr). clear Ht.
  rewrite Hfst, !total_cost_zero in H.
  cbn [sched_with_events events] in H. rewrite unfaithful_count_app in H.
  lia.
Qed.

End LaunchFidelity.

Section LaunchFidelityClaim.

Import SubprocessPool.

(** X10: a run launches what was queued and nothing else.  Every launch
    in a run with accepted arguments is the launch of a command of the
    queue, with its words unchanged: handed over as the list itself
    without [shell], and joined by single spaces into one line with
    [shell]; the output is captured exactly when [output] is set. *)
Theorem commands_launched_as_queued
  (fuel : nat) (env : Env) (p R : Z) (sh out : bool) (w : world) :
  (1 <= p <= 36)%Z -> (0 <= R <= 30)%Z ->
  exists evs,
    events (fst (run_processes fuel env (PyInt p) (PyBool sh) (PyBool out)
                   (PyInt R) w))
    = events w ++ evs
    /\ Forall (launches_as_queued (cmd_list (self w)) sh out) evs.
Proof.
  intros Hp HR. rewrite run_processes_accepted_sched by assumption.
  destruct (loop_launches_as_queued (cmd_list (self w)) sh out env p R fuel
              (new_trackers (cmd_list (self w))) []
              {| self := {| cmd_list := [] |}; events := events w |}
              (new_trackers_job (cmd_list (self w))) (Forall_nil _))
    as [evs [Hfst Hall]].
  exists evs. unfold new_trackers in Hfst. rewrite Hfst.
  split; [reflexivity | exact Hall].
Qed.

End LaunchFidelityClaim.

(* ================================================================== *)
(** ** Further properties: the limit on concurrency *)

Section ConcurrencyLimit.

Import SubprocessPool.

Variables (env : Env) (p : Z) (sh out : bool) (R : Z).

Lemma main_loop_turn (fuel : nat) (to_run running : list CMDTracker)
  (w : world) :
  main_loop (S fuel) env p sh out R to_run running w
  = if (0 <? List.length to_run)%nat || (0 <? List.length running)%nat
    then (st <- turn env p sh out R to_run running ;;
          main_loop fuel env p sh out R (fst st) (snd st)) w
    else (w, inr Finished).
Proof.
  cbn [main_loop].
  destruct ((0 <? List.length to_run)%nat || (0 <? List.length running)%nat);
    [|reflexivity].
  unfold turn. rewrite !bind_unfold.
  destruct (start_processes (List.length to_run) env p sh out to_run
              running w) as [w1 [e|started]]; [reflexivity|].
  rewrite !bind_unfold.
  destruct (poll out (snd started) [] [] w1) as [w2 [e|polled]];
    [reflexivity|].
  rewrite !bind_unfold.
  destruct (check_completed env out R (snd polled) (fst started) w2)
    as [w3 [e|to_run']]; reflexivity.
Qed.

Lemma poll_lengths (running : list CMDTracker) :
  forall (still completed : list CMDTracker) (w w' : world)
         (still' completed' : list CMDTracker),
  poll out running still completed w = (w', inr (still', completed')) ->
  (List.length still' + List.length completed'
   = List.length still + List.length completed + List.length running)%nat.
Proof.
  induction running as [|c rest IH]; intros still completed w w' s' c' H;
    cbn [poll] in H.
  - injection H as <- <- <-. cbn [List.length]. lia.
  - destruct (popen c) as [pr|]; [|discriminate].
    rewrite bind_unfold, sched_emit_spec in H.
    destruct (polls_left pr); apply IH in H; rewrite H, length_app;
      cbn [List.length]; lia.
Qed.

(** X9: the limit on concurrency is kept.  The launch step takes
    commands from the end of the waiting list, the last one first, and
    stops at the limit: it fills the free slots as far as commands wait
    and never brings the number of running processes above [processes].
    A turn of the loop that starts with at most [processes] running
    processes polls at most [processes] of them and ends with at most
    [processes]; the loop, which starts with none, is the repetition of
    this turn. *)
Theorem concurrency_limit_is_kept :
  (forall (to_run running : list CMDTracker) (w w' : world)
          (to_run' running' : list CMDTracker),
      start_processes (List.length to_run) env p sh out to_run running w
      = (w', inr (to_run', running')) ->
      exists moved,
        to_run = to_run' ++ rev moved
        /\ running' = running ++ map (launched_with env) moved
        /\ events w' = events w ++ map (spawn_event sh out) moved
        /\ (Z.of_nat (List.length running')
            <= Z.max p (Z.of_nat (List.length running)))%Z
        /\ (to_run' = [] \/ (p <= Z.of_nat (List.length running'))%Z))
  /\ (forall (to_run running : list CMDTracker) (w w' : world)
             (to_run' running' : list CMDTracker),
         turn env p sh out R to_run running w
         = (w', inr (to_run', running')) ->
         (Z.of_nat (List.length running) <= p)%Z ->
         (Z.of_nat (List.length running') <= p)%Z)
  /\ (forall (fuel : nat) (to_run running : list CMDTracker) (w : world),
         (0 <? List.length to_run)%nat || (0 <? List.length running)%nat
         = true ->
         main_loop (S fuel) env p sh out R to_run running w
         = (st <- turn env p sh out R to_run running ;;
            main_loop fuel env p sh out R (fst st) (snd st)) w).
Proof.
  assert (Hstart :
    forall (to_run running : list CMDTracker) (w w' : world)
           (to_run' running' : list CMDTracker),
      start_processes (List.length to_run) env p sh out to_run running w
      = (w', inr (to_run', running')) ->
      exists moved,
        to_run = to_run' ++ rev moved
        /\ running' = running ++ map (launched_with env) moved
        /\ events w' = events w ++ map (spawn_event sh out) moved
        /\ (Z.of_nat (List.length running')
            <= Z.max p (Z.of_nat (List.length running)))%Z
        /\ (to_run' = [] \/ (p <= Z.of_nat (List.length running'))%Z)).
  { intros to_run running w w' tr' rn' H.
    destruct (start_processes_structure env p sh out (List.length to_run)
                to_run running w)
      as [moved [rest [Hsplit [Hfst [Hcap Hsnd]]]]].
    rewrite H in Hfst, Hsnd. cbn [fst snd] in Hfst, Hsnd.
    destruct Hsnd as [-> [-> [_ Hgreedy]]].
    exists moved. split; [exact Hsplit|]. split; [reflexivity|].
    split; [rewrite Hfst; reflexivity|]. split.
    - rewrite length_app, length_map. destruct moved as [|m moved].
      + cbn [List.length]. lia.
      + assert (Hm : m :: moved <> []) by discriminate.
        specialize (Hcap Hm). lia.
    - apply Hgreedy. apply le_n. }
  split; [exact Hstart|]. split.
  - intros to_run running w w' tr' rn' H Hle. unfold turn in H.
    rewrite bind_unfold in H.
    destruct (start_processes (List.length to_run) env p sh out to_run
                running w) as [w1 [e|[tr1 rn1]]] eqn:H1; [discriminate|].
    destruct (Hstart _ _ _ _ _ _ H1) as [moved [_ [_ [_ [Hmax _]]]]].
    rewrite bind_unfold in H. cbn [fst snd] in H.
    destruct (poll out rn1 [] [] w1) as [w2 [e|[s c]]] eqn:H2;
      [discriminate|].
    apply poll_lengths in H2. cbn [List.length] in H2.
    rewrite bind_unfold in H. cbn [fst snd] in H.
    destruct (check_completed env out R c tr1 w2) as [w3 [e|tr2]];
      [discriminate|].
    unfold ret in H. injection H as <- <- <-. lia.
  - intros fuel to_run running w Hcond. rewrite main_loop_turn, Hcond.
    reflexivity.
Qed.

End ConcurrencyLimit.

(* ================================================================== *)
(** ** Further properties: a run that does not capture the output *)

Section OutputUnset.

Import SubprocessPool.

Variables (env : Env) (p : Z) (sh : bool) (R : Z).

Lemma poll_unset (running : list CMDTracker) :
  forall (still completed : list CMDTracker) (w w' : world)
         (still' completed' : list CMDTracker),
  poll false running still completed w = (w', inr (still', completed')) ->
  Forall stdout_unset completed -> Forall stdout_unset completed'.
Proof.
  induction running as [|c rest IH]; intros still completed w w' s' c' H Hc;
    cbn [poll] in H.
  - injection H as <- <- <-. exact Hc.
  - destruct (popen c) as [pr|]; [|discriminate].
    rewrite bind_unfold, sched_emit_spec in H.
    destruct (polls_left pr); apply IH in H; try exact H; try exact Hc.
    apply Forall_app. split; [exact Hc|]. constructor; [reflexivity|].
    constructor.
Qed.

Lemma check_completed_unset (completed : list CMDTracker) :
  forall (to_run : list CMDTracker) (w : world),
  Forall stdout_unset completed ->
  fst (check_completed env false R completed to_run w) = w
  /\ forall e, snd (check_completed env false R completed to_run w) = inl e ->
               exists msg, e = AttributeError msg.
Proof.
  induction completed as [|c rest IH]; intros to_run w Hc;
    cbn [check_completed].
  - split; [reflexivity | discriminate].
  - inversion Hc as [|? ? Hu Hrest]; subst.
    destruct (popen c) as [pr|].
    + destruct (negb (returncode pr =? 0)%Z);
        [destruct (retries c =? R)%Z|].
      * rewrite bind_unfold. unfold lift, get_std_out_from_tracker.
        rewrite Hu. split; [reflexivity|]. intros e H. cbn [snd] in H.
        injection H as <-. eexists. reflexivity.
      * apply IH. exact Hrest.
      * rewrite bind_unfold. unfold ret at 1. apply IH. exact Hrest.
    + split; [reflexivity|]. intros e H. cbn [raise snd] in H.
      injection H as <-. eexists. reflexivity.
Qed.

Lemma not_log_spawns (evs : list event) :
  Forall is_spawn evs -> Forall not_log evs.
Proof.
  intro H. eapply Forall_impl; [|exact H]. intros [] Hs; try contradiction;
    exact I.
Qed.

Lemma not_log_communicates (evs : list event) :
  Forall is_communicate evs -> Forall not_log evs.
Proof.
  intro H. eapply Forall_impl; [|exact H]. intros [] Hs; try contradiction;
    exact I.
Qed.

Lemma main_loop_unset (fuel : nat) :
  forall (to_run running : list CMDTracker) (w : world),
  exists evs,
    fst (main_loop fuel env p sh false R to_run running w)
    = sched_with_events w evs
    /\ Forall not_log evs
    /\ forall e,
        snd (main_loop fuel env p sh false R to_run running w) = inl e ->
        is_launch_exception e \/ (exists msg, e = AttributeError msg).
Proof.
  induction fuel as [|fuel IH]; intros to_run running w; cbn [main_loop];
    destruct ((0 <? List.length to_run)%nat
              || (0 <? List.length running)%nat);
    try (exists []; rewrite sched_with_events_nil;
         split; [reflexivity|]; split; [constructor | discriminate]).
  rewrite bind_unfold.
  destruct (start_processes_sound env p sh false (List.length to_run)
              to_run running w) as [e1 [H1 [Hs1 E1]]].
  destruct (start_processes (List.length to_run) env p sh false to_run
              running w) as [w1 [x|started]]; cbn [fst snd] in *; subst w1.
  { exists e1. split; [reflexivity|]. split; [apply not_log_spawns; exact Hs1|].
    intros e H. injection H as <-. left. exact E1. }
  rewrite bind_unfold.
  destruct (poll_sound false (snd started) [] [] (sched_with_events w e1))
    as [e2 [H2 [Hs2 E2]]].
  destruct (poll false (snd started) [] [] (sched_with_events w e1))
    as [w2 [x|[still completed]]] eqn:Hpoll; cbn [fst snd] in *; subst w2.
  { exists (e1 ++ e2). rewrite sched_with_events_app. split; [reflexivity|].
    split.
    - apply Forall_app. split; [apply not_log_spawns; exact Hs1|].
      apply not_log_communicates. exact Hs2.
    - intros e H. injection H as <-. right. exact E2. }
  rewrite bind_unfold.
  destruct (check_completed_unset completed (fst started)
              (sched_with_events (sched_with_events w e1) e2)
              (poll_unset _ _ _ _ _ _ _ Hpoll (Forall_nil _)))
    as [H3 E3].
  destruct (check_completed env false R completed (fst started)
              (sched_with_events (sched_with_events w e1) e2))
    as [w3 [x|to_run']]; cbn [fst snd] in *; subst w3.
  { exists (e1 ++ e2). rewrite sched_with_events_app. split; [reflexivity|].
    split.
    - apply Forall_app. split; [apply not_log_spawns; exact Hs1|].
      apply not_log_communicates. exact Hs2.
    - intros e H. injection H as <-. right. apply E3. reflexivity. }
  destruct (IH to_run' still (sched_with_events (sched_with_events w e1) e2))
    as [e4 [H4 [Hs4 E4]]].
  exists (e1 ++ e2 ++ e4). split; [|split].
  - rewrite H4, !sched_with_events_app. reflexivity.
  - apply Forall_app. split; [apply not_log_spawns; exact Hs1|].
    apply Forall_app. split; [apply not_log_communicates; exact Hs2|].
    exact Hs4.
  - exact E4.
Qed.

Lemma launch_exception_not_runtime_error (e : pyexc) (msg : string) :
  is_launch_exception e \/ (exists m, e = AttributeError m) ->
  e <> RuntimeError msg.
Proof.
  intros [[f ->]|[m ->]]; [destruct f|]; discriminate.
Qed.

(** X11: a run with [output] unset logs nothing and never raises the
    error of the exhausted budget.  The output of a completed process is
    then [None], so the fatal branch fails on decoding it before it logs
    and before it reaches its [RuntimeError].  Such a run sends no line
    to [logging]; what it raises is the error of a launch that failed or
    an [AttributeError], never a [RuntimeError]; and where a completed
    command has failed with its counter at the budget, the check raises
    an [AttributeError] and leaves the trace as it was. *)
Theorem output_unset_never_logs
  (fuel : nat) (w : world) :
  (1 <= p <= 36)%Z -> (0 <= R <= 30)%Z ->
  (exists evs,
      events (fst (run_processes fuel env (PyInt p) (PyBool sh) (PyBool false)
                     (PyInt R) w))
      = events w ++ evs
      /\ Forall not_log evs)
  /\ (forall e,
         snd (run_processes fuel env (PyInt p) (PyBool sh) (PyBool false)
                (PyInt R) w) = inl e ->
         (is_launch_exception e \/ exists msg, e = AttributeError msg)
         /\ forall msg, e <> RuntimeError msg)
  /\ (forall (completed to_run : list CMDTracker) (w0 : world)
             (t : CMDTracker) (pr : Popen),
         Forall stdout_unset completed ->
         In t completed -> popen t = Some pr -> returncode pr <> 0%Z ->
         retries t = R ->
         exists msg,
           check_completed env false R completed to_run w0
           = (w0, inl (AttributeError msg))).
Proof.
  intros Hp HR. rewrite run_processes_accepted_sched by assumption.
  match goal with
  | |- context [main_loop fuel env p sh false R ?a ?b ?c] =>
      destruct (main_loop_unset fuel a b c) as [evs [Hfst [Hlog Herr]]]
  end.
  split; [|split].
  - exists evs. rewrite Hfst. split; [reflexivity | exact Hlog].
  - intros e He. split; [apply Herr, He|].
    intro msg. apply launch_exception_not_runtime_error, Herr, He.
  - intros completed to_run w0 t pr Hunset Hin Hpo Hrc Hret.
    destruct (check_completed_fatal env false R completed to_run w0 t pr
                Hin Hpo Hrc Hret) as [e He].
    destruct (check_completed_unset completed to_run w0 Hunset) as [Hw Hattr].
    destruct (Hattr e He) as [msg ->]. exists msg.
    destruct (check_completed env false R completed to_run w0) as [w1 r].
    cbn [fst snd] in *. subst. reflexivity.
Qed.

End OutputUnset.

(* ================================================================== *)
(** ** Further properties: what a run logs, and the queue after a run *)

Section LogBound.

Import SubprocessPool.

Variables (env : Env) (p : Z) (sh out : bool) (R : Z).

Lemma log_count_app (a b : list event) :
  log_count (a ++ b) = (log_count a + log_count b)%nat.
Proof. unfold log_count. now rewrite filter_app, length_app. Qed.

Lemma log_count_world (w : world) (evs : list event) :
  log_count (events (sched_with_events w evs))
  = (log_count (events w) + log_count evs)%nat.
Proof. cbn [sched_with_events events]. apply log_count_app. Qed.

Lemma log_count_spawns (evs : list event) :
  Forall is_spawn evs -> log_count evs = 0%nat.
Proof.
  induction 1 as [|ev evs Hev _ IH]; [reflexivity|].
  destruct ev; try contradiction. exact IH.
Qed.

Lemma log_count_communicates (evs : list event) :
  Forall is_communicate evs -> log_count evs = 0%nat.
Proof.
  induction 1 as [|ev evs Hev _ IH]; [reflexivity|].
  destruct ev; try contradiction. exact IH.
Qed.

(** Checking the completed processes logs at most one line for each
    that it does not put back to wait. *)
Lemma check_completed_logs (completed : list CMDTracker) :
  forall (to_run : list CMDTracker) (w : world),
  (log_count (events (fst (check_completed env out R completed to_run w)))
   + match snd (check_completed env out R completed to_run w) with
     | inr to_run' => List.length to_run'
     | inl _ => 0
     end
   <= log_count (events w) + List.length to_run + List.length completed)%nat.
Proof.
  induction completed as [|c rest IH]; intros to_run w;
    cbn [check_completed].
  - cbn [ret fst snd List.length]. lia.
  - cbn [List.length]. destruct (popen c) as [pr|];
      [|cbn [raise fst snd]; lia].
    destruct (negb (returncode pr =? 0)%Z);
      [destruct (retries c =? R)%Z|].
    + rewrite bind_unfold. unfold lift.
      destruct (get_std_out_from_tracker env c) as [e|s];
        [cbv beta iota; cbn [fst snd]; lia|].
      cbv beta iota. rewrite bind_unfold, sched_emit_spec. cbv beta iota.
      cbn [raise fst snd].
      rewrite log_count_world. cbn. lia.
    + specialize (IH (to_run ++ [set_popen None
                                   (set_retries (retries c + 1) c)]) w).
      rewrite length_app in IH. cbn [List.length] in IH. lia.
    + rewrite bind_unfold. destruct out.
      * rewrite bind_unfold. unfold lift.
        destruct (get_std_out_from_tracker env c) as [e|s];
          [cbv beta iota; cbn [fst snd]; lia|].
        cbv beta iota. rewrite sched_emit_spec.
        match goal with
        | |- context [check_completed env true R rest to_run ?b] =>
            specialize (IH to_run b)
        end.
        rewrite log_count_world in IH. cbn in IH. cbn. lia.
      * change (@ret world unit tt w) with (w, @inr pyexc unit tt).
        cbv beta iota. specialize (IH to_run w). lia.
Qed.

Lemma main_loop_logs (fuel : nat) :
  forall (to_run running : list CMDTracker) (w : world),
  (log_count (events (fst (main_loop fuel env p sh out R to_run running w)))
   <= log_count (events w) + List.length to_run + List.length running)%nat.
Proof.
  induction fuel as [|fuel IH]; intros to_run running w; cbn [main_loop];
    destruct ((0 <? List.length to_run)%nat
              || (0 <? List.length running)%nat);
    try (cbn [ret fst]; lia).
  rewrite bind_unfold.
  destruct (start_processes_structure env p sh out (List.length to_run)
              to_run running w) as [moved [rest [Hsplit [H1 [_ Hsnd]]]]].
  destruct (start_processes_sound env p sh out (List.length to_run)
              to_run running w) as [e1 [H1' [Hs1 _]]].
  clear H1.
  destruct (start_processes (List.length to_run) env p sh out to_run
              running w) as [w1 [x|[tr1 rn1]]]; cbn [fst snd] in *; subst w1.
  { rewrite log_count_world, (log_count_spawns e1 Hs1). lia. }
  destruct Hsnd as [-> [-> _]]. rewrite bind_unfold.
  destruct (poll_sound out (running ++ map (launched_with env) moved) [] []
              (sched_with_events w e1)) as [e2 [H2 [Hs2 _]]].
  destruct (poll out (running ++ map (launched_with env) moved) [] []
              (sched_with_events w e1)) as [w2 [x|[still completed]]] eqn:Hp;
    cbn [fst snd] in *; subst w2.
  { rewrite !log_count_world, (log_count_spawns e1 Hs1),
      (log_count_communicates e2 Hs2). lia. }
  apply poll_lengths in Hp. cbn [List.length] in Hp.
  rewrite length_app, length_map in Hp.
  rewrite bind_unfold.
  pose proof (check_completed_logs completed rest
                (sched_with_events (sched_with_events w e1) e2)) as Hc.
  destruct (check_completed env out R completed rest
              (sched_with_events (sched_with_events w e1) e2))
    as [w3 [x|tr2]]; cbn [fst snd] in *.
  - rewrite !log_count_world, (log_count_spawns e1 Hs1),
      (log_count_communicates e2 Hs2) in Hc.
    subst to_run. rewrite length_app, length_rev. lia.
  - specialize (IH tr2 still w3).
    rewrite !log_count_world, (log_count_spawns e1 Hs1),
      (log_count_communicates e2 Hs2) in Hc.
    subst to_run. rewrite length_app, length_rev. lia.
Qed.

(** X12: a run logs at most one line for each queued command.  In
    every run with accepted arguments, however it ends and wherever it
    is cut off, the number of lines that the run adds to what was sent
    to [logging] is at most the number of commands that were queued,
    whatever the number of retries. *)
Theorem at_most_one_log_per_command (fuel : nat) (w : world) :
  (1 <= p <= 36)%Z -> (0 <= R <= 30)%Z ->
  (log_count
     (events (fst (run_processes fuel env (PyInt p) (PyBool sh) (PyBool out)
                     (PyInt R) w)))
   <= log_count (events w) + List.length (cmd_list (self w)))%nat.
Proof.
  intros Hp HR. rewrite run_processes_accepted_sched by assumption.
  match goal with
  | |- context [main_loop fuel env p sh out R ?a ?b ?c] =>
      pose proof (main_loop_logs fuel a b c) as H
  end.
  assert (Hlen : List.length
                   (map (fun ic => CMDTracker_init (fst ic) (snd ic))
                      (enumerate (cmd_list (self w))))
                 = List.length (cmd_list (self w))).
  { rewrite length_map. unfold enumerate.
    rewrite length_combine, length_seq. apply Nat.min_id. }
  rewrite Hlen in H. cbn [events List.length] in H. lia.
Qed.

(** X13: the scheduler is ready for a new batch after a run.  Once its
    arguments are accepted, a run leaves the queue empty however it ends
    (returning, raising, or cut off), so that commands added afterwards
    run exactly as they would on a new scheduler. *)
Theorem scheduler_ready_for_new_batch
  (fuel : nat) (w : world) :
  (1 <= p <= 36)%Z -> (0 <= R <= 30)%Z ->
  self (fst (run_processes fuel env (PyInt p) (PyBool sh) (PyBool out)
               (PyInt R) w)) = init
  /\ forall (fuel' : nat) (env' : Env) (p' sh' out' r' batch : pyval),
      run_processes fuel' env' p' sh' out' r'
        {| self := fst (add_list_of_commands batch
                          (self (fst (run_processes fuel env (PyInt p)
                                        (PyBool sh) (PyBool out) (PyInt R)
                                        w))));
           events := [] |}
      = run_processes fuel' env' p' sh' out' r'
          {| self := fst (add_list_of_commands batch init); events := [] |}.
Proof.
  intros Hp HR.
  pose proof (scheduler_run_drains_queue fuel env p R sh out w Hp HR) as Hd.
  split; [exact Hd|]. intros. rewrite Hd. reflexivity.
Qed.

End LogBound.

(* ================================================================== *)
(** ** Further properties: a command that cannot be started *)

Section LaunchFailure.

Import SubprocessPool.

Lemma pop_last {A : Type} (l : list A) (x : A) : pop (l ++ [x]) = Some (l, x).
Proof.
  induction l as [|a l IH]; [reflexivity|].
  cbn [app pop]. rewrite IH. reflexivity.
Qed.

Lemma enumerate_from_last {A : Type} (l : list A) (x : A) (s : nat) :
  combine (seq s (List.length (l ++ [x]))) (l ++ [x])
  = combine (seq s (List.length l)) l ++ [((s + List.length l)%nat, x)].
Proof.
  revert s. induction l as [|a l IH]; intro s.
  - cbn. rewrite Nat.add_0_r. reflexivity.
  - cbn [app List.length seq combine]. rewrite IH.
    replace (S s + List.length l)%nat with (s + S (List.length l))%nat by lia.
    reflexivity.
Qed.

Lemma new_trackers_last (cmds : list (list string)) (last : list string) :
  new_trackers (cmds ++ [last])
  = new_trackers cmds ++ [CMDTracker_init (List.length cmds) last].
Proof.
  unfold new_trackers, enumerate. rewrite enumerate_from_last, map_app.
  reflexivity.
Qed.

(** X14: the retry budget does not cover a launch that fails.  When
    [Popen] raises an [OSError] for the command at the end of the queue,
    which is the first one to be started, the run raises that error at once,
    whatever the number of retries: the trace holds this one launch, no
    other command is started and the queue is left empty. *)
Theorem launch_failure_is_not_retried
  (fuel : nat) (env : Env) (p R : Z) (sh out : bool)
  (cmds : list (list string)) (last : list string) (msg : string)
  (evs : list event) :
  (1 <= p <= 36)%Z -> (0 <= R <= 30)%Z ->
  spawn env (List.length cmds) 0 = inl (LaunchOSError msg) ->
  run_processes (S fuel) env (PyInt p) (PyBool sh) (PyBool out) (PyInt R)
    {| self := {| cmd_list := cmds ++ [last] |}; events := evs |}
  = ({| self := init;
        events := evs ++ [Spawn (List.length cmds) (popen_args_for sh last)
                            out sh] |},
     inl (OSError msg)).
Proof.
  intros Hp HR Hs. rewrite run_processes_accepted_sched by assumption.
  cbn [self cmd_list events]. fold (new_trackers (cmds ++ [last])).
  rewrite new_trackers_last. cbn [main_loop].
  rewrite length_app. cbn [List.length].
  replace (0 <? List.length (new_trackers cmds) + 1)%nat with true
    by (symmetry; apply Nat.ltb_lt; lia).
  cbn [orb]. rewrite bind_unfold.
  replace (List.length (new_trackers cmds) + 1)%nat
    with (S (List.length (new_trackers cmds))) by lia.
  cbn [start_processes List.length].
  replace (Z.of_nat 0 <? p)%Z with true by (symmetry; apply Z.ltb_lt; lia).
  rewrite pop_last, bind_unfold, sched_emit_spec. cbv beta iota.
  rewrite bind_unfold. unfold lift, Popen_init.
  cbn [CMDTracker_init ident retries cmd]. rewrite Hs. reflexivity.
Qed.

Lemma launch_failure_is_not_retried_witness :
  run_processes 4
    {| spawn := fun _ _ => inl (LaunchOSError "No such file or directory");
       decode := fun _ => None |}
    (PyInt 2) (PyBool false) (PyBool true) (PyInt 30)
    {| self := {| cmd_list := [["ls"]] ++ [["no-such-tool"]] |};
       events := [] |}
  = ({| self := init;
        events := [] ++ [Spawn (List.length [["ls"]])
                           (popen_args_for false ["no-such-tool"])
                           true false] |},
     inl (OSError "No such file or directory")).
Proof.
  apply (launch_failure_is_not_retried 3
           {| spawn :=
                fun _ _ => inl (LaunchOSError "No such file or directory");
              decode := fun _ => None |}
           2 30 false true [["ls"]] ["no-such-tool"]
           "No such file or directory" []).
  - lia.
  - lia.
  - reflexivity.
Defined.

End LaunchFailure.

(* ================================================================== *)
(** ** The further properties at concrete batches *)

Section FurtherExamples.

Import SubprocessPool.

Lemma scheduler_run_terminates_witness :
  exists fuel0, forall fuel, (fuel0 <= fuel)%nat ->
    snd (run_processes fuel failing_env (PyInt 1) (PyBool false)
           (PyBool true) (PyInt 2) (fresh_scheduler [["a"]; ["b"]]))
    <> inr OutOfFuel.
Proof.
  apply (scheduler_run_terminates failing_env 2 1 false true
           (fresh_scheduler [["a"]; ["b"]])); lia.
Defined.

Lemma no_command_launched_beyond_budget_witness :
  (spawn_count 1
     (events (fst (run_processes 9 failing_env (PyInt 1) (PyBool false)
                     (PyBool true) (PyInt 2)
                     (fresh_scheduler [["a"]; ["b"]]))))
   <= spawn_count 1 (events (fresh_scheduler [["a"]; ["b"]]))
      + (if (1 <? List.length
                    (cmd_list (self (fresh_scheduler [["a"]; ["b"]]))))%nat
         then S (Z.to_nat 2) else 0))%nat.
Proof.
  apply (no_command_launched_beyond_budget failing_env 2 9 1 false true
           (fresh_scheduler [["a"]; ["b"]]) 1); lia.
Defined.

Lemma commands_launched_as_queued_witness :
  exists evs,
    events (fst (run_processes 9 flaky_env (PyInt 2) (PyBool true)
                   (PyBool true) (PyInt 2)
                   (fresh_scheduler [["ls"; "-l"]; ["pwd"]])))
    = events (fresh_scheduler [["ls"; "-l"]; ["pwd"]]) ++ evs
    /\ Forall (launches_as_queued
                 (cmd_list (self (fresh_scheduler [["ls"; "-l"]; ["pwd"]])))
                 true true) evs.
Proof.
  apply (commands_launched_as_queued 9 flaky_env 2 2 true true
           (fresh_scheduler [["ls"; "-l"]; ["pwd"]])); lia.
Defined.

Lemma output_unset_never_logs_witness :
  (exists evs,
      events (fst (run_processes 9 failing_env (PyInt 1) (PyBool false)
                     (PyBool false) (PyInt 0)
                     (fresh_scheduler [["a"]; ["b"]])))
      = events (fresh_scheduler [["a"]; ["b"]]) ++ evs
      /\ Forall not_log evs)
  /\ snd (run_processes 9 failing_env (PyInt 1) (PyBool false)
            (PyBool false) (PyInt 0) (fresh_scheduler [["a"]; ["b"]]))
     = inl (none_has_no "decode").
Proof.
  destruct (output_unset_never_logs failing_env 1 false 0 9
              (fresh_scheduler [["a"]; ["b"]])) as [Hlog _]; [lia | lia |].
  split; [exact Hlog | reflexivity].
Defined.

Lemma concurrency_limit_is_kept_witness :
  (Z.of_nat (List.length (@nil CMDTracker)) <= 1)%Z.
Proof.
  destruct (concurrency_limit_is_kept failing_env 1 false true 2)
    as [_ [Hturn _]].
  eapply (Hturn [CMDTracker_init 0 ["a"]; CMDTracker_init 1 ["b"]] []
            (fresh_scheduler [])).
  - reflexivity.
  - simpl. lia.
Defined.

Lemma at_most_one_log_per_command_witness :
  (log_count
     (events (fst (run_processes 9 flaky_env (PyInt 1) (PyBool false)
                     (PyBool true) (PyInt 2)
                     (fresh_scheduler [["a"]; ["b"]]))))
   <= log_count (events (fresh_scheduler [["a"]; ["b"]]))
      + List.length (cmd_list (self (fresh_scheduler [["a"]; ["b"]]))))%nat.
Proof.
  apply (at_most_one_log_per_command flaky_env 1 false true 2 9
           (fresh_scheduler [["a"]; ["b"]])); lia.
Defined.

Lemma scheduler_ready_for_new_batch_witness :
  self (fst (run_processes 9 failing_env (PyInt 1) (PyBool false)
               (PyBool true) (PyInt 0) (fresh_scheduler [["a"]; ["b"]])))
  = init.
Proof.
  apply (scheduler_ready_for_new_batch failing_env 1 false true 0 9
           (fresh_scheduler [["a"]; ["b"]])); lia.
Defined.

(** With two slots and three commands waiting, the launch step starts
    the last two, the last one first, and leaves the first waiting. *)
Example launch_step_takes_from_the_end :
  start_processes 3 flaky_env 2 false true
    [CMDTracker_init 0 ["a"]; CMDTracker_init 1 ["b"];
     CMDTracker_init 2 ["c"]] [] (fresh_scheduler [])
  = ({| self := init;
        events := [Spawn 2 (Argv ["c"]) true false;
                   Spawn 1 (Argv ["b"]) true false] |},
     inr ([CMDTracker_init 0 ["a"]],
          [launched_with flaky_env (CMDTracker_init 2 ["c"]);
           launched_with flaky_env (CMDTracker_init 1 ["b"])])).
Proof. reflexivity. Qed.

End FurtherExamples.
